(** * Region-name resolution: [RegionConverter] of regions_to_countries.py

    A shallow embedding of the resolver and the statements of its
    specification that were checked against it.

    - Python [str] values are sequences of Unicode code points: [list N].
    - [self.__region_dict__] and [self.__manual_dict__] are Python dicts
      keyed by strings: [gmap].
    - The methods mutate [self] and may raise: a state-and-exception monad
      over the mutable attributes of [self].
    - The Facebook endpoint and the regular-expression engine behind
      pandas' [Series.str.contains] are outside the repository; they are
      variables of the development. *)

From Stdlib Require Import String Ascii NArith ZArith Lia.
From stdpp Require Import gmap list.
From Equations Require Import Equations.

Local Open Scope N_scope.

(** ** Strings *)

Abbreviation pystr := (list N).

(** A string literal of the source, as code points. *)
Definition py (s : string) : pystr :=
  List.map N_of_ascii (list_ascii_of_string s).

(** [s.startswith(prefix)] *)
Fixpoint startswith (s prefix : pystr) {struct prefix} : bool :=
  match prefix, s with
  | [], _ => true
  | p :: prefix', c :: s' => (c =? p) && startswith s' prefix'
  | _ :: _, [] => false
  end.

(** [sub in s] *)
Fixpoint contains (s sub : pystr) : bool :=
  startswith s sub ||
  match s with
  | [] => false
  | _ :: s' => contains s' sub
  end.

(** [s.replace(old, new)] for a non-empty [old]: a left-to-right scan that
    replaces each occurrence it meets and resumes after it; [skip] counts
    the characters of the current occurrence still to pass over. *)
Fixpoint replace_from (old new : pystr) (skip : nat) (s : pystr) : pystr :=
  match s with
  | [] => []
  | c :: s' =>
      match skip with
      | S k => replace_from old new k s'
      | O =>
          if startswith s old
          then new ++ replace_from old new (length old - 1) s'
          else c :: replace_from old new 0 s'
      end
  end.

(** [s.replace(old, new)]; an empty [old] matches before every character
    and at the end. *)
Definition replace (s old new : pystr) : pystr :=
  match old with
  | [] => new ++ flat_map (fun c => c :: new) s
  | _ :: _ => replace_from old new 0 s
  end.

(** [re.sub(' +', ' ', s)]: every maximal run of U+0020 becomes one space.
    A space followed by a space is dropped, so the last one of each run
    stays. *)
Fixpoint sub_spaces (s : pystr) : pystr :=
  match s with
  | [] => []
  | c :: s' =>
      if (c =? 32) && match s' with c' :: _ => c' =? 32 | [] => false end
      then sub_spaces s'
      else c :: sub_spaces s'
  end.

(** [c.isspace()] for one code point (CPython's [_PyUnicode_IsWhitespace]). *)
Definition isspace (c : N) : bool :=
  ((9 <=? c) && (c <=? 13)) || ((28 <=? c) && (c <=? 32))
  || (c =? 133) || (c =? 160) || (c =? 5760)
  || ((8192 <=? c) && (c <=? 8202))
  || (c =? 8232) || (c =? 8233) || (c =? 8239) || (c =? 8287) || (c =? 12288).

(** [s.rstrip()] *)
Fixpoint rstrip (s : pystr) : pystr :=
  match s with
  | [] => []
  | c :: s' =>
      match rstrip s' with
      | [] => if isspace c then [] else [c]
      | r => c :: r
      end
  end.

(** The pattern [\([^)]+\)] at the head of [s]: the number of characters
    it matches. [close_paren s] is the number of characters before the
    first [')'] of [s]. *)
Fixpoint close_paren (s : pystr) : option nat :=
  match s with
  | [] => None
  | c :: s' => if c =? 41 then Some O else S <$> close_paren s'
  end.

Definition match_group (s : pystr) : option nat :=
  match s with
  | c :: s' =>
      if c =? 40 then
        match close_paren s' with
        | Some (S n) => Some (S (S (S n)))
        | _ => None
        end
      else None
  | [] => None
  end.

(** The pattern [ ?\([^)]+\)] at the head of [s]. *)
Definition match_parens (s : pystr) : option nat :=
  match s with
  | c :: s' =>
      if c =? 32 then
        match match_group s' with
        | Some n => Some (S n)
        | None => None
        end
      else match_group s
  | [] => None
  end.

Fixpoint remove_parens_from (skip : nat) (s : pystr) : pystr :=
  match s with
  | [] => []
  | c :: s' =>
      match skip with
      | S k => remove_parens_from k s'
      | O =>
          match match_parens s with
          | Some n => remove_parens_from (n - 1) s'
          | None => c :: remove_parens_from 0 s'
          end
      end
  end.

(** [__remove_parens__]: [re.sub(r" ?\([^)]+\)", "", string)] *)
Definition remove_parens (string : pystr) : pystr :=
  remove_parens_from 0 string.

(** [self.suffixes] *)
Definition suffixes : list pystr :=
  List.map py
    ["Province"; "Region"; "District"; "State"; "Governate"; "Department";
     "Oblast"; "City"; "Zone"; "Prefecture"]%string.

(** [__remove_suffix__] *)
Definition remove_suffix (string : pystr) : pystr :=
  let string :=
    fold_left (fun string suffix => replace string suffix []) suffixes string in
  rstrip (sub_spaces string).

Arguments remove_suffix : simpl never.
Arguments remove_parens : simpl never.

Example remove_suffix_sindh :
  remove_suffix (py "Sindh Province") = py "Sindh".
Proof. reflexivity. Qed.

Example remove_suffix_inner :
  remove_suffix (py "Region  of Zone X ") = py " of X".
Proof. reflexivity. Qed.

Example remove_parens_georgia :
  remove_parens (py "Georgia (US)") = py "Georgia".
Proof. reflexivity. Qed.

Example remove_parens_unclosed :
  remove_parens (py "a () (b(c) d (e") = py "a () d (e".
Proof. reflexivity. Qed.

Example replace_empty_old :
  replace (py "abc") [] (py "-") = py "-a-b-c-".
Proof. reflexivity. Qed.

Example replace_overlap :
  replace (py "aaaa") (py "aa") (py "b") = py "bb"
  /\ replace (py "aaa") (py "aa") (py "b") = py "ba".
Proof. split; reflexivity. Qed.

(** ** Lengths under the normalizer

    Each step of [remove_suffix] deletes characters and nothing else, so a
    result as long as the input is the input. The remote-search client
    recurses on this measure. *)

Lemma replace_from_cons old new c s :
  replace_from old new 0 (c :: s) =
  if startswith (c :: s) old
  then new ++ replace_from old new (length old - 1) s
  else c :: replace_from old new 0 s.
Proof. reflexivity. Qed.

Lemma replace_from_length old skip s :
  (length (replace_from old [] skip s) <= length s)%nat.
Proof.
  revert skip. induction s as [|c s IH]; intros skip; [simpl; lia|].
  destruct skip as [|k].
  - rewrite replace_from_cons.
    destruct (startswith (c :: s) old); simpl.
    + specialize (IH (length old - 1)%nat). lia.
    + specialize (IH O). lia.
  - simpl. specialize (IH k). lia.
Qed.

Lemma replace_from_fixed old s :
  length (replace_from old [] 0 s) = length s -> replace_from old [] 0 s = s.
Proof.
  induction s as [|c s IH]; [reflexivity|].
  rewrite replace_from_cons.
  destruct (startswith (c :: s) old); simpl.
  - pose proof (replace_from_length old (length old - 1) s). lia.
  - intros H. f_equal. apply IH. lia.
Qed.

Lemma flat_map_singleton (s : pystr) : flat_map (fun c => [c]) s = s.
Proof. induction s as [|c s IH]; simpl; [reflexivity | now rewrite IH]. Qed.

Lemma replace_length s old : (length (replace s old []) <= length s)%nat.
Proof.
  destruct old as [|o old]; simpl.
  - rewrite flat_map_singleton. lia.
  - apply replace_from_length.
Qed.

Lemma replace_fixed s old :
  length (replace s old []) = length s -> replace s old [] = s.
Proof.
  destruct old as [|o old]; simpl.
  - intros _. apply flat_map_singleton.
  - apply replace_from_fixed.
Qed.

Lemma sub_spaces_length s : (length (sub_spaces s) <= length s)%nat.
Proof.
  induction s as [|c s IH]; simpl; [lia|].
  destruct ((c =? 32) && _); simpl; lia.
Qed.

Lemma sub_spaces_fixed s :
  length (sub_spaces s) = length s -> sub_spaces s = s.
Proof.
  induction s as [|c s IH]; [reflexivity|].
  pose proof (sub_spaces_length s) as Hle. simpl.
  destruct ((c =? 32) && _); simpl; intros H; [lia | f_equal; apply IH; lia].
Qed.

Lemma rstrip_length s : (length (rstrip s) <= length s)%nat.
Proof.
  induction s as [|c s IH]; simpl; [lia|].
  destruct (rstrip s) as [|r rs]; [destruct (isspace c)|]; simpl in *; lia.
Qed.

Lemma rstrip_fixed s : length (rstrip s) = length s -> rstrip s = s.
Proof.
  induction s as [|c s IH]; [reflexivity|].
  pose proof (rstrip_length s) as Hle. simpl.
  destruct (rstrip s) as [|r rs] eqn:E.
  - destruct (isspace c); simpl in *; intros H; [lia|].
    f_equal. apply IH. lia.
  - simpl in *. intros H. f_equal. apply IH. lia.
Qed.

Lemma fold_replace_length l s :
  (length (fold_left (fun string suffix => replace string suffix []) l s)
   <= length s)%nat.
Proof.
  revert s. induction l as [|w l IH]; intros s; simpl; [lia|].
  specialize (IH (replace s w [])). pose proof (replace_length s w). lia.
Qed.

Lemma fold_replace_fixed l s :
  length (fold_left (fun string suffix => replace string suffix []) l s)
  = length s ->
  fold_left (fun string suffix => replace string suffix []) l s = s.
Proof.
  revert s. induction l as [|w l IH]; intros s; simpl; [reflexivity|].
  intros H.
  pose proof (fold_replace_length l (replace s w [])) as H1.
  pose proof (replace_length s w) as H2.
  assert (Hw : replace s w [] = s) by (apply replace_fixed; lia).
  rewrite Hw in *. apply IH. exact H.
Qed.

Lemma remove_suffix_length s : (length (remove_suffix s) <= length s)%nat.
Proof.
  unfold remove_suffix.
  pose proof (fold_replace_length suffixes s).
  pose proof (sub_spaces_length
    (fold_left (fun string suffix => replace string suffix []) suffixes s)).
  pose proof (rstrip_length (sub_spaces
    (fold_left (fun string suffix => replace string suffix []) suffixes s))).
  lia.
Qed.

Lemma remove_suffix_fixed s :
  length (remove_suffix s) = length s -> remove_suffix s = s.
Proof.
  unfold remove_suffix.
  set (f := fold_left (fun string suffix => replace string suffix []) suffixes s).
  pose proof (fold_replace_length suffixes s) as H1. fold f in H1.
  pose proof (sub_spaces_length f) as H2.
  pose proof (rstrip_length (sub_spaces f)) as H3.
  intros H.
  assert (Hf : f = s) by (apply fold_replace_fixed; fold f; lia).
  assert (Hs : sub_spaces f = f) by (apply sub_spaces_fixed; lia).
  rewrite Hs, Hf in *. apply rstrip_fixed. exact H.
Qed.

Lemma remove_suffix_shorter s :
  remove_suffix s <> s -> (length (remove_suffix s) < length s)%nat.
Proof.
  intros Hne. pose proof (remove_suffix_length s).
  destruct (decide (length (remove_suffix s) = length s)) as [E|E]; [|lia].
  exfalso. apply Hne, remove_suffix_fixed, E.
Qed.

(** ** Data model *)

(** A cell of the geo dataframe or a field of a result tuple; [None] is
    Python's [None] or pandas' NaN. *)
Definition cell : Type := option pystr.

(** The tuple [(corrected_name, country_name, iso)]. *)
Definition record : Type := cell * cell * cell.

Definition corrected_name (t : record) : cell := t.1.1.

(** A row of [self.__geos__]. [self.__geocols__] are the columns whose
    name contains "name" before the merge with the ISO table: the column
    [name] itself and the alternate-name columns. *)
Record geo_row := {
  name : cell;
  alt_names : list cell;
  iso_a2 : cell;
  country_name : cell
}.

Definition geocols (row : geo_row) : list cell := name row :: alt_names row.

Definition row_record (row : geo_row) : record :=
  (name row, country_name row, iso_a2 row).

(** One entry of the service's ['data'] list. *)
Record candidate := {
  cand_name : pystr;
  cand_country_name : pystr;
  cand_country_code : pystr
}.

(** The HTTP response: status, body text, and the ['data'] list of the
    body's JSON. *)
Record response := {
  status_code : Z;
  text : pystr;
  data : list candidate
}.

(** The immutable attributes of [self]: [__warn_region_mismatch__],
    [__manual_dict__] (rows of four CSV fields, so its values are three
    strings) and [__geos__]. *)
Record RegionConverter := {
  warn_region_mismatch : Z;
  manual_dict : gmap pystr (pystr * pystr * pystr);
  geos : list geo_row
}.

Inductive warning :=
| WillNotMatchGeo (region : pystr)
| NotFoundAnywhere (region : pystr).

(** The mutable part: [__region_dict__], [error_regions], the warnings
    issued, and the queries sent to the endpoint, newest first. *)
Record state := {
  region_dict : gmap pystr record;
  error_regions : list pystr;
  warnings : list warning;
  requests : list pystr
}.

Inductive exn :=
| HTTPError (status : Z) (body : pystr)
| ReError (pattern : pystr)
| IndexError.

Inductive outcome (A : Type) :=
| Return (a : A)
| Raise (e : exn).
Arguments Return {A} a.
Arguments Raise {A} e.

(** A method body: it reads and updates the state and returns or raises.
    Updates made before a raise stay. *)
Definition M (A : Type) : Type := state -> outcome A * state.

Definition ret {A} (a : A) : M A := fun st => (Return a, st).

Definition raise {A} (e : exn) : M A := fun st => (Raise e, st).

Definition bind {A B} (m : M A) (k : A -> M B) : M B :=
  fun st =>
    match m st with
    | (Return a, st') => k a st'
    | (Raise e, st') => (Raise e, st')
    end.

Notation "x <- m ;; k" := (bind m (fun x => k))
  (at level 100, m at next level, right associativity).
Notation "m ;;; k" := (bind m (fun _ => k))
  (at level 100, right associativity).

(** [self.__region_dict__[key] = value] *)
Definition dict_set (key : pystr) (value : record) : M unit :=
  fun st =>
    (Return tt,
     {| region_dict := <[key := value]> (region_dict st);
        error_regions := error_regions st;
        warnings := warnings st;
        requests := requests st |}).

(** [self.error_regions.append(region)] *)
Definition error_regions_append (region : pystr) : M unit :=
  fun st =>
    (Return tt,
     {| region_dict := region_dict st;
        error_regions := error_regions st ++ [region];
        warnings := warnings st;
        requests := requests st |}).

(** [warnings.warn(...)] *)
Definition warn (w : warning) : M unit :=
  fun st =>
    (Return tt,
     {| region_dict := region_dict st;
        error_regions := error_regions st;
        warnings := warnings st ++ [w];
        requests := requests st |}).

(** Python truth of the [warn_region_mismatch] level. *)
Definition truthy (level : Z) : bool := negb (level =? 0)%Z.

(** [mask.sum()] and [mask.any(axis=1)] of a boolean array given by rows;
    [df.loc[keep]] for a boolean vector. *)
Definition mask_sum (mask : list (list bool)) : nat :=
  list_sum (List.map (fun row => length (List.filter (fun b => b) row)) mask).

Definition mask_any (mask : list (list bool)) : list bool :=
  List.map (existsb (fun b => b)) mask.

Fixpoint loc (rows : list geo_row) (keep : list bool) : list geo_row :=
  match rows, keep with
  | row :: rows', b :: keep' =>
      if b then row :: loc rows' keep' else loc rows' keep'
  | _, _ => []
  end.

(** [series == region], elementwise: a missing cell equals no string. *)
Definition cell_eq (region : pystr) (c : cell) : bool :=
  match c with
  | Some s => bool_decide (s = region)
  | None => false
  end.

Section Resolver.

(** [re.compile(pat)] succeeds; [re.compile(pat).search(s)] finds a
    match. pandas' [str.contains(pat, na=False)] has [regex=True]. *)
Variable re_compiles : pystr -> bool.
Variable re_search : pystr -> pystr -> bool.

(** The search endpoint: its response to the newest request, given every
    query sent so far (newest first). *)
Variable endpoint : list pystr -> response.

(** [series.str.contains(pat, na=False)] on one cell. *)
Definition str_contains (pat : pystr) (c : cell) : bool :=
  match c with
  | Some s => re_search pat s
  | None => false
  end.

(** [__connect_to_endpoint__] for the search URL ending in [q=region]. *)
Definition connect_to_endpoint (region : pystr) : M response :=
  fun st =>
    let st' := {| region_dict := region_dict st;
                  error_regions := error_regions st;
                  warnings := warnings st;
                  requests := region :: requests st |} in
    let response := endpoint (requests st') in
    if (status_code response =? 200)%Z
    then (Return response, st')
    else (Raise (HTTPError (status_code response) (text response)), st').

Equations? region_to_country_from_API (region : pystr) (st : state)
  : outcome (option (pystr * pystr * pystr)) * state
  by wf (length region) lt :=
  region_to_country_from_API region st with connect_to_endpoint region st => {
    | (Raise e, st1) := (Raise e, st1);
    | (Return json, st1) with data json => {
        | c :: _ :=
            let country_name := cand_country_name c in
            let iso := cand_country_code c in
            let corrected_name := cand_name c in
            (dict_set region (Some corrected_name, Some country_name, Some iso) ;;;
             ret (Some (corrected_name, country_name, iso))) st1;
        | [] with decide (remove_suffix region = region) => {
            | right _ := region_to_country_from_API (remove_suffix region) st1;
            | left _ := (Return None, st1) } } }.
Proof. now apply remove_suffix_shorter. Qed.

Definition region_to_country_from_geo (self : RegionConverter)
    (region : pystr) : M (option record) :=
  let corrected_name := remove_suffix region in
  if negb (re_compiles corrected_name) then raise (ReError corrected_name)
  else
    let mask :=
      List.map (fun row => List.map (str_contains corrected_name) (geocols row))
               (geos self) in
    if (mask_sum mask =? 0)%nat then ret None
    else
      let matched := loc (geos self) (mask_any mask) in
      let matched :=
        if (1 <? length matched)%nat then
          let mask :=
            List.map (fun row => List.map (cell_eq region) (geocols row))
                     matched in
          if (mask_sum mask =? 0)%nat then
            let mask :=
              List.map (fun row => List.map (cell_eq region) (geocols row))
                       matched in
            if (0 <? mask_sum mask)%nat then loc matched (mask_any mask)
            else matched
          else loc matched (mask_any mask)
        else matched in
      match matched with
      | row :: _ =>
          let corrected_name := name row in
          let country := country_name row in
          let iso := iso_a2 row in
          dict_set region (corrected_name, country, iso) ;;;
          ret (Some (corrected_name, country, iso))
      | [] => raise IndexError
      end.

Definition region_to_country (self : RegionConverter) (region : pystr)
  : M record :=
  let region := remove_parens region in
  fun st =>
    match region_dict st !! region with
    | Some country_tuple => (Return country_tuple, st)
    | None =>
       (country_tuple <- region_to_country_from_geo self region ;;
        match country_tuple with
        | Some country_tuple => ret country_tuple
        | None =>
        let manual_tuple := manual_dict self !! region in
        country_tuple <-
          match manual_tuple with
          | Some (m0, _, _) =>
              if bool_decide (m0 = []) then ret None
              else region_to_country_from_geo self m0
          | None => ret None
          end ;;
        match country_tuple with
        | Some country_tuple => ret country_tuple
        | None =>
        facebook_tuple <- region_to_country_from_API region ;;
        country_tuple <-
          match facebook_tuple with
          | Some (f0, _, _) => region_to_country_from_geo self f0
          | None => ret None
          end ;;
        match country_tuple with
        | Some country_tuple => ret country_tuple
        | None =>
        error_regions_append region ;;;
        (if truthy (warn_region_mismatch self)
         then warn (WillNotMatchGeo region) else ret tt) ;;;
        match manual_tuple, facebook_tuple with
        | Some (_, m1, m2), _ =>
            let out := (None, Some m1, Some m2) in
            dict_set region out ;;; ret out
        | None, Some (_, f1, f2) =>
            let out := (None, Some f1, Some f2) in
            dict_set region out ;;; ret out
        | None, None =>
            (if truthy (warn_region_mismatch self)
             then warn (NotFoundAnywhere region) else ret tt) ;;;
            dict_set region (None, None, None) ;;;
            ret (None, None, None)
        end
        end end end) st
    end.

(** A session: the calls made between construction and teardown. A
    caller may catch what a call raises, so the next call starts from
    the state the previous one left. *)
Fixpoint session (self : RegionConverter) (regions : list pystr)
    (st : state) : state :=
  match regions with
  | [] => st
  | region :: regions' =>
      session self regions' (region_to_country self region st).2
  end.

End Resolver.

(** ** Construction and teardown *)

(** What [csv.reader] yields for a file, in order: a row, or [None]
    where [open] or the reader raises (a missing file is [[None]]). *)
Definition csv_rows : Type := list (option (list pystr)).

(** The warning of [__read_to_dict__], with the value of [counter]. *)
Inductive load_warning :=
| FailedToReadDict (row : nat).

(** The loop of [__read_to_dict__]: the dict read so far and, when the
    [try] block raised, the value of [counter] then. *)
Fixpoint read_rows (reader : csv_rows) (counter : nat)
    (region_dict : gmap pystr (pystr * pystr * pystr))
  : gmap pystr (pystr * pystr * pystr) * option nat :=
  match reader with
  | [] => (region_dict, None)
  | None :: _ => (region_dict, Some counter)
  | Some row :: reader' =>
      let counter := S counter in
      match row with
      | r0 :: r1 :: r2 :: r3 :: _ =>
          read_rows reader' counter (<[r0 := (r1, r2, r3)]> region_dict)
      | _ => (region_dict, Some counter)
      end
  end.

(** [__read_to_dict__] *)
Definition read_to_dict (file : csv_rows)
  : gmap pystr (pystr * pystr * pystr) * list load_warning :=
  match read_rows file 0 ∅ with
  | (region_dict, None) => (region_dict, [])
  | (region_dict, Some counter) => (region_dict, [FailedToReadDict counter])
  end.

(** [for k in keys: manual_dict.pop(k, None)] *)
Definition pop_keys (keys : list pystr)
    (manual_dict : gmap pystr (pystr * pystr * pystr))
  : gmap pystr (pystr * pystr * pystr) :=
  fold_left (fun manual_dict k => delete k manual_dict) keys manual_dict.

(** A tuple read from the cache file, as a cache record: its three
    fields are strings. *)
Definition loaded (t : pystr * pystr * pystr) : record :=
  (Some t.1.1, Some t.1.2, Some t.2).

(** What [__init__] sets: the immutable attributes, the mutable ones,
    [__start_dict_len__], and the warnings of the two reads. The rows
    that [__open_geos__] returns are an argument. *)
Record construction := {
  converter_of : RegionConverter;
  state_of : state;
  start_dict_len : nat;
  load_warnings : list load_warning
}.

(** [__init__] *)
Definition init (manual_file dict_file : csv_rows) (rows : list geo_row)
    (warn_region_mismatch : Z) : construction :=
  let (manual_dict, manual_warnings) := read_to_dict manual_file in
  let (region_dict, dict_warnings) := read_to_dict dict_file in
  {| converter_of :=
       {| warn_region_mismatch := warn_region_mismatch;
          manual_dict :=
            pop_keys (List.map fst (map_to_list region_dict)) manual_dict;
          geos := rows |};
     state_of :=
       {| region_dict := loaded <$> region_dict;
          error_regions := [];
          warnings := [];
          requests := [] |};
     start_dict_len := size region_dict;
     load_warnings := manual_warnings ++ dict_warnings |}.

(** [__del__]: the error regions it prints, [list(set(...))], and
    whether it calls [__write_dict__]. *)
Definition del (start_dict_len : nat) (st : state) : gset pystr * bool :=
  (list_to_set (error_regions st),
   bool_decide (start_dict_len < size (region_dict st))%nat).

(** ** Predicates on strings used by the statements *)

(** No word of [self.suffixes] occurs in [s]. *)
Definition suffix_free (s : pystr) : bool :=
  forallb (fun suffix => negb (contains s suffix)) suffixes.

(** The last character of [s] is whitespace. *)
Fixpoint ends_with_space (s : pystr) : bool :=
  match s with
  | [] => false
  | [c] => isspace c
  | _ :: s' => ends_with_space s'
  end.

(** A token of a string made of suffix words and whitespace. *)
Definition suffix_or_space (tok : pystr) : bool :=
  bool_decide (tok ∈ suffixes) ||
  match tok with
  | [c] => isspace c
  | _ => false
  end.

(** ** Definitions used by the statements about the matcher and the client *)

(** [row] has a name column that satisfies [f]. *)
Definition row_has (f : cell -> bool) (row : geo_row) : bool :=
  existsb f (geocols row).

(** The rows of [matched] with a name column equal to [region], or
    [matched] itself when there is none. *)
Definition narrowed (region : pystr) (matched : list geo_row) : list geo_row :=
  match List.filter (row_has (cell_eq region)) matched with
  | [] => matched
  | exact => exact
  end.

(** The state after [self.__region_dict__[key] = value]. *)
Definition put (key : pystr) (value : record) (st : state) : state :=
  (dict_set key value st).2.

(** The rows the matcher's search finds for [region]. *)
Definition candidates (re_search : pystr -> pystr -> bool)
    (self : RegionConverter) (region : pystr) : list geo_row :=
  List.filter (row_has (str_contains re_search (remove_suffix region)))
              (geos self).

(** What the matcher finds, apart from the cache write. *)
Definition geo_lookup (re_compiles : pystr -> bool)
    (re_search : pystr -> pystr -> bool)
    (self : RegionConverter) (region : pystr) : outcome (option geo_row) :=
  if re_compiles (remove_suffix region)
  then Return (head (narrowed region (candidates re_search self region)))
  else Raise (ReError (remove_suffix region)).

(** The state after a request for [region] has been sent. *)
Definition sent (region : pystr) (st : state) : state :=
  {| region_dict := region_dict st;
     error_regions := error_regions st;
     warnings := warnings st;
     requests := region :: requests st |}.

(** The retry chain that starts with a request for [region], [log]
    being the queries sent before, meets a response whose status is not
    200; [status] and [body] are those of that response. *)
Inductive transport_failure (endpoint : list pystr -> response)
  : pystr -> list pystr -> Z -> pystr -> Prop :=
| failure_now region log :
    status_code (endpoint (region :: log)) <> 200%Z ->
    transport_failure endpoint region log
      (status_code (endpoint (region :: log)))
      (text (endpoint (region :: log)))
| failure_retry region log status body :
    status_code (endpoint (region :: log)) = 200%Z ->
    data (endpoint (region :: log)) = [] ->
    remove_suffix region <> region ->
    transport_failure endpoint (remove_suffix region) (region :: log)
      status body ->
    transport_failure endpoint region log status body.

(** [t] is the unvalidated first candidate of some response of the
    service, as the remote-search client caches it. *)
Definition from_service (endpoint : list pystr -> response) (t : record) : Prop :=
  exists log c,
    head (data (endpoint log)) = Some c
    /\ t = (Some (cand_name c), Some (cand_country_name c),
            Some (cand_country_code c)).

(** [pat in cell], false on a missing cell. *)
Definition cell_contains (pat : pystr) (c : cell) : bool :=
  match c with
  | Some s => contains s pat
  | None => false
  end.

(** The cell is not missing. *)
Definition cell_present (c : cell) : bool :=
  match c with
  | Some _ => true
  | None => false
  end.

(** ** Definitions used by the further statements *)

(** No parenthesized group, ['('], one or more characters other than
    [')'], and [')'], begins anywhere in [s]. *)
Fixpoint group_free (s : pystr) : bool :=
  match s with
  | [] => true
  | _ :: s' =>
      match match_group s with
      | Some _ => false
      | None => group_free s'
      end
  end.

(** The queries of the retry chain: [region] stripped [n] times. *)
Definition stripped (n : nat) (region : pystr) : pystr :=
  Nat.iter n remove_suffix region.

(** The request log after the retry chain from [region] has sent [n]
    retries: [region], then [region] stripped once, and so on, the newest
    query first, before the older [log]. *)
Fixpoint queries_sent (n : nat) (region : pystr) (log : list pystr)
  : list pystr :=
  match n with
  | O => region :: log
  | S k => queries_sent k (remove_suffix region) (region :: log)
  end.

(** A row with the four fields that [__read_to_dict__] reads. *)
Definition four_fields (row : list pystr) : bool :=
  match row with
  | _ :: _ :: _ :: _ :: _ => true
  | _ => false
  end.

(** The assignment [region_dict[row[0]] = (row[1], row[2], row[3])]. *)
Definition add_row (region_dict : gmap pystr (pystr * pystr * pystr))
    (row : list pystr) : gmap pystr (pystr * pystr * pystr) :=
  match row with
  | r0 :: r1 :: r2 :: r3 :: _ => <[r0 := (r1, r2, r3)]> region_dict
  | _ => region_dict
  end.

(** Every error region is recorded once and is a key of the cache
    table. *)
Definition error_regions_cached (st : state) : Prop :=
  NoDup (error_regions st)
  /\ forall region, region ∈ error_regions st ->
       is_Some (region_dict st !! region).

(** ** Test doubles

    A regular-expression engine and endpoints for closed examples. *)

(** The special characters of Python's [re]. *)
Definition re_special (c : N) : bool :=
  existsb (N.eqb c) (py ".^$*+?{}[]\|()").

(** A pattern of ordinary characters only: it matches itself. *)
Definition literal (pat : pystr) : bool :=
  forallb (fun c => negb (re_special c)) pat.

(** Patterns made of ordinary characters and ['.'], which matches any
    character but a newline. On these the engine below is Python's; it
    rejects every other pattern, and the examples use none. *)
Definition dot_compiles (pat : pystr) : bool :=
  forallb (fun c => (c =? 46) || negb (re_special c)) pat.

Fixpoint dot_match (s pat : pystr) {struct pat} : bool :=
  match pat, s with
  | [], _ => true
  | p :: pat', c :: s' =>
      (((p =? 46) && negb (c =? 10)) || (c =? p)) && dot_match s' pat'
  | _ :: _, [] => false
  end.

Fixpoint dot_search_from (s pat : pystr) : bool :=
  dot_match s pat ||
  match s with
  | [] => false
  | _ :: s' => dot_search_from s' pat
  end.

Definition dot_search (pat s : pystr) : bool := dot_search_from s pat.

Definition geo (n : string) (alts : list string) (iso country : string)
  : geo_row :=
  {| name := Some (py n);
     alt_names := List.map (fun a => Some (py a)) alts;
     iso_a2 := Some (py iso);
     country_name := Some (py country) |}.

Definition found (n country code : string) : candidate :=
  {| cand_name := py n;
     cand_country_name := py country;
     cand_country_code := py code |}.

Definition ok (d : list candidate) : response :=
  {| status_code := 200; text := []; data := d |}.

Definition unavailable : response :=
  {| status_code := 503; text := py "Service Unavailable"; data := [] |}.

(** An endpoint that answers by the newest query alone. *)
Definition answers (table : list (pystr * response)) (log : list pystr)
  : response :=
  match log with
  | q :: _ =>
      match List.find (fun e => bool_decide (e.1 = q)) table with
      | Some e => e.2
      | None => ok []
      end
  | [] => ok []
  end.

(** The state at construction with an empty cache file. *)
Definition new_session : state :=
  {| region_dict := ∅; error_regions := []; warnings := []; requests := [] |}.

Definition converter (level : Z) (manual : list (pystr * (pystr * pystr * pystr)))
    (rows : list geo_row) : RegionConverter :=
  {| warn_region_mismatch := level;
     manual_dict := list_to_map manual;
     geos := rows |}.

(** [self] with another warning level. *)
Definition with_level (level : Z) (self : RegionConverter) : RegionConverter :=
  {| warn_region_mismatch := level;
     manual_dict := manual_dict self;
     geos := geos self |}.

(** ** Scenarios of the closed examples *)

Local Open Scope string_scope.

(** A geo table of two rows, no manual overrides, and a service that
    knows "Bavarian Land" under a name of its own and "Atlantis" under a
    name the geo table does not have. *)
Definition bavaria : RegionConverter :=
  converter 1 []
    [geo "Bayern" ["Bavaria"] "DE" "Germany";
     geo "Sindh" [] "PK" "Pakistan"].

Definition bavaria_service : list pystr -> response :=
  answers
    [(py "Bavarian Land", ok [found "Bavaria" "Deutschland" "DE"]);
     (py "Atlantis", ok [found "Atlantis Deep" "Oceania" "OC"]);
     (py "Lemuria", unavailable)].

Definition resolve : pystr -> M record :=
  region_to_country dot_compiles dot_search bavaria_service bavaria.

(** The state after resolving "Bavarian Land" in a new session. *)
Definition after_bavarian : state :=
  (resolve (py "Bavarian Land") new_session).2.

(** A geo table in which the pattern "St. Cruz", read as a regular
    expression, also finds "Sta Cruz". *)
Definition cruz : RegionConverter :=
  converter 1 []
    [geo "Sta Cruz" [] "AA" "Aland";
     geo "St. Cruz East" [] "BB" "Bland";
     geo "St. Cruz West" [] "CC" "Cland"].

(** Two rows named "Punjab". *)
Definition punjab : RegionConverter :=
  converter 1 []
    [geo "Punjab" [] "PK" "Pakistan";
     geo "Punjab" ["Panjab"] "IN" "India";
     geo "Sindh" [] "PK" "Pakistan"].

(** A row whose name is a suffix word. *)
Definition cities : RegionConverter :=
  converter 1 []
    [geo "Alpha" [] "AA" "Aland";
     geo "City" [] "BB" "Bland"].

Local Close Scope string_scope.

(** ** Scenarios of the further examples *)



(** A cache file of two rows and the same file with a blank line
    between them. *)
Definition cache_rows : list (list pystr) :=
  [[py "Bavarian Land"; py "Bavaria"; py "Deutschland"; py "DE"];
   [py "Atlantis"; []; py "Oceania"; py "OC"; py "extra"]].

Definition cache_rows_blank_line : csv_rows :=
  [Some [py "Bavarian Land"; py "Bavaria"; py "Deutschland"; py "DE"];
   Some [];
   Some [py "Atlantis"; []; py "Oceania"; py "OC"]].

(** ** The normalizer where no suffix word occurs *)

Lemma replace_from_absent old new s :
  contains s old = false -> replace_from old new 0 s = s.
Proof.
  induction s as [|c s IH]; [reflexivity|].
  cbn [contains]. intros H. apply orb_false_elim in H as [H1 H2].
  rewrite replace_from_cons, H1. f_equal. auto.
Qed.

Lemma replace_absent s old new :
  contains s old = false -> replace s old new = s.
Proof.
  destruct old as [|o old].
  - destruct s; discriminate.
  - apply replace_from_absent.
Qed.

Lemma fold_replace_absent l s :
  forallb (fun suffix => negb (contains s suffix)) l = true ->
  fold_left (fun string suffix => replace string suffix []) l s = s.
Proof.
  induction l as [|w l IH]; [reflexivity|].
  cbn [forallb fold_left]. intros H. apply andb_prop in H as [H1 H2].
  apply negb_true_iff in H1. rewrite (replace_absent _ _ _ H1). auto.
Qed.

Lemma startswith_space s :
  startswith s [32] = match s with c :: _ => c =? 32 | [] => false end.
Proof. destruct s; cbn; [reflexivity | apply andb_true_r]. Qed.

Lemma startswith_spaces c s :
  startswith (c :: s) [32; 32] =
  (c =? 32) && match s with d :: _ => d =? 32 | [] => false end.
Proof.
  change (startswith (c :: s) [32; 32]) with ((c =? 32) && startswith s [32]).
  now rewrite startswith_space.
Qed.

Lemma sub_spaces_cons c s :
  sub_spaces (c :: s) =
  if startswith (c :: s) [32; 32] then sub_spaces s else c :: sub_spaces s.
Proof. rewrite startswith_spaces. reflexivity. Qed.

Lemma sub_spaces_no_run s :
  contains s [32; 32] = false -> sub_spaces s = s.
Proof.
  induction s as [|c s IH]; [reflexivity|].
  cbn [contains]. intros H. apply orb_false_elim in H as [H1 H2].
  rewrite sub_spaces_cons, H1. f_equal. auto.
Qed.

Lemma rstrip_cons c s :
  rstrip (c :: s) =
  match rstrip s with
  | [] => if isspace c then [] else [c]
  | r => c :: r
  end.
Proof. reflexivity. Qed.

Lemma rstrip_no_trailing s : ends_with_space s = false -> rstrip s = s.
Proof.
  induction s as [|c s IH]; [reflexivity|].
  destruct s as [|d s].
  - cbn. now intros ->.
  - intros H. change (ends_with_space (d :: s) = false) in H.
    rewrite rstrip_cons, (IH H). reflexivity.
Qed.

Lemma rstrip_ends s : ends_with_space (rstrip s) = false.
Proof.
  induction s as [|c s IH]; [reflexivity|].
  rewrite rstrip_cons. destruct (rstrip s) as [|r rs] eqn:E.
  - destruct (isspace c) eqn:Ec; cbn; [reflexivity | exact Ec].
  - exact IH.
Qed.

Lemma sub_spaces_head c s :
  exists t, sub_spaces (c :: s) = c :: t.
Proof.
  revert c. induction s as [|d s IH]; intros c.
  - cbn. rewrite andb_false_r. eauto.
  - rewrite sub_spaces_cons, startswith_spaces.
    destruct (c =? 32) eqn:Ec; [destruct (d =? 32) eqn:Ed|]; cbn [andb].
    + apply N.eqb_eq in Ec, Ed. subst. apply IH.
    + eauto.
    + eauto.
Qed.

Lemma sub_spaces_run_free s : contains (sub_spaces s) [32; 32] = false.
Proof.
  induction s as [|c s IH]; [reflexivity|].
  rewrite sub_spaces_cons.
  destruct (startswith (c :: s) [32; 32]) eqn:E; [exact IH|].
  cbn [contains]. rewrite IH, orb_false_r.
  rewrite startswith_spaces in *.
  destruct (c =? 32); [|reflexivity]. cbn [andb] in *.
  destruct s as [|d s]; [reflexivity|].
  destruct (sub_spaces_head d s) as [t ->]. exact E.
Qed.

Lemma startswith_rstrip s p :
  startswith (rstrip s) p = true -> startswith s p = true.
Proof.
  revert p. induction s as [|c s IH]; intros p; [trivial|].
  destruct p as [|q p]; [reflexivity|].
  rewrite rstrip_cons. destruct (rstrip s) as [|r rs] eqn:E.
  - destruct (isspace c); [discriminate|].
    cbn [startswith]. destruct p; [|rewrite andb_false_r; discriminate].
    now rewrite !andb_true_r.
  - cbn [startswith]. intros H. apply andb_prop in H as [H1 H2].
    rewrite H1. now apply IH.
Qed.

Lemma rstrip_run_free s :
  contains s [32; 32] = false -> contains (rstrip s) [32; 32] = false.
Proof.
  induction s as [|c s IH]; [trivial|].
  cbn [contains]. intros H. apply orb_false_elim in H as [H1 H2].
  specialize (IH H2).
  assert (Hc : startswith (rstrip (c :: s)) [32; 32] = false).
  { destruct (startswith (rstrip (c :: s)) [32; 32]) eqn:E; [|reflexivity].
    apply startswith_rstrip in E. congruence. }
  rewrite rstrip_cons in *. destruct (rstrip s) as [|r rs] eqn:E.
  - destruct (isspace c); [reflexivity|].
    cbn [contains]. now rewrite Hc.
  - cbn [contains]. rewrite Hc. exact IH.
Qed.

Lemma remove_suffix_unchanged s :
  suffix_free s = true -> contains s [32; 32] = false ->
  ends_with_space s = false -> remove_suffix s = s.
Proof.
  intros H1 H2 H3. unfold remove_suffix.
  rewrite (fold_replace_absent _ _ H1), (sub_spaces_no_run _ H2).
  now apply rstrip_no_trailing.
Qed.

Lemma remove_suffix_normal s :
  contains (remove_suffix s) [32; 32] = false
  /\ ends_with_space (remove_suffix s) = false.
Proof.
  unfold remove_suffix. split.
  - apply rstrip_run_free, sub_spaces_run_free.
  - apply rstrip_ends.
Qed.

(** ** The normalizer on strings made of suffix words and whitespace

    Every suffix word begins with a capital letter and has no other, and
    none is a prefix of another; so in a concatenation of suffix words and
    whitespace characters a suffix word occurs only where a token starts,
    and deleting one word leaves the other tokens as they are. *)

Lemma suffixes_In w :
  w ∈ suffixes ->
  In w [py "Province"; py "Region"; py "District"; py "State";
        py "Governate"; py "Department"; py "Oblast"; py "City";
        py "Zone"; py "Prefecture"]%string.
Proof. intros H. apply list_elem_of_In in H. exact H. Qed.

Ltac each_suffix H :=
  apply suffixes_In in H; cbn [In] in H;
  repeat (destruct H as [H|H]; [subst|]); [..|destruct H].

Lemma replace_suffix_from w s :
  w ∈ suffixes -> replace s w [] = replace_from w [] 0 s.
Proof. intros H. each_suffix H; reflexivity. Qed.

Lemma replace_from_word w tok rest :
  w ∈ suffixes -> tok ∈ suffixes ->
  replace_from w [] 0 (tok ++ rest) =
  (if bool_decide (tok = w) then [] else tok) ++ replace_from w [] 0 rest.
Proof.
  intros Hw Htok. each_suffix Hw; each_suffix Htok; reflexivity.
Qed.

Lemma replace_from_space w c rest :
  w ∈ suffixes -> isspace c = true ->
  replace_from w [] 0 (c :: rest) = c :: replace_from w [] 0 rest.
Proof.
  intros Hw Hc. rewrite replace_from_cons.
  assert (Hs : startswith (c :: rest) w = false); [|now rewrite Hs].
  each_suffix Hw;
    (cbv [py List.map list_ascii_of_string N_of_ascii N_of_digits];
     cbn [startswith N.add N.mul];
     match goal with
     | |- (c =? ?n) && _ = false =>
         destruct (N.eqb_spec c n) as [->|_]; [discriminate Hc | reflexivity]
     end).
Qed.

Lemma space_not_suffix c : [c] ∉ suffixes.
Proof. intros H. each_suffix H; discriminate. Qed.

Lemma suffix_or_space_cases tok :
  suffix_or_space tok = true ->
  tok ∈ suffixes \/ exists c, tok = [c] /\ isspace c = true.
Proof.
  unfold suffix_or_space. intros H. apply orb_prop in H as [H|H].
  - left. now apply bool_decide_eq_true in H.
  - right. destruct tok as [|c [|d tok]]; try discriminate. eauto.
Qed.

Lemma replace_tokens w toks :
  w ∈ suffixes -> forallb suffix_or_space toks = true ->
  exists toks',
    replace (concat toks) w [] = concat toks'
    /\ forallb suffix_or_space toks' = true
    /\ forall tok, tok ∈ toks' -> tok ∈ toks /\ tok <> w.
Proof.
  intros Hw. rewrite (replace_suffix_from _ _ Hw).
  induction toks as [|tok toks IH]; intros Hall.
  - exists []. split; [|split]; trivial. intros tok H. inversion H.
  - cbn [forallb] in Hall. apply andb_prop in Hall as [Htok Hall].
    destruct (IH Hall) as (toks' & E & Hall' & Hsub).
    cbn [concat].
    destruct (suffix_or_space_cases _ Htok) as [Hin | (c & -> & Hc)].
    + rewrite (replace_from_word _ _ _ Hw Hin), E. case_bool_decide.
      * exists toks'. split; [|split]; trivial.
        intros t Ht. destruct (Hsub t Ht). split; [now right | trivial].
      * exists (tok :: toks'). cbn [concat forallb]. rewrite Htok, Hall'.
        split; [|split]; trivial.
        intros t Ht. apply elem_of_cons in Ht as [->|Ht].
        -- split; [now left | trivial].
        -- destruct (Hsub t Ht). split; [now right | trivial].
    + change ([c] ++ concat toks) with (c :: concat toks).
      rewrite (replace_from_space _ _ _ Hw Hc), E.
      exists ([c] :: toks'). cbn [concat forallb]. rewrite Htok, Hall'.
      split; [|split]; trivial.
      intros t Ht. apply elem_of_cons in Ht as [->|Ht].
      * split; [now left|]. intros Ew. subst w. now apply (space_not_suffix c).
      * destruct (Hsub t Ht). split; [now right | trivial].
Qed.

Lemma fold_replace_tokens ws toks :
  (forall w, w ∈ ws -> w ∈ suffixes) ->
  forallb suffix_or_space toks = true ->
  exists toks',
    fold_left (fun string suffix => replace string suffix []) ws (concat toks)
    = concat toks'
    /\ forallb suffix_or_space toks' = true
    /\ forall tok, tok ∈ toks' -> tok ∈ toks /\ tok ∉ ws.
Proof.
  revert toks. induction ws as [|w ws IH]; intros toks Hws Hall.
  - exists toks. split; [|split]; trivial.
    intros tok Ht. split; [trivial|]. intros H. inversion H.
  - cbn [fold_left].
    destruct (replace_tokens w toks) as (toks1 & E1 & Hall1 & Hsub1);
      [apply Hws; now left | trivial |].
    destruct (IH toks1) as (toks2 & E2 & Hall2 & Hsub2);
      [intros v Hv; apply Hws; now right | trivial |].
    exists toks2. rewrite E1, E2. split; [|split]; trivial.
    intros tok Ht. destruct (Hsub2 tok Ht) as [Ht1 Hws'].
    destruct (Hsub1 tok Ht1) as [Ht0 Hne]. split; [trivial|].
    intros Hin. apply elem_of_cons in Hin as [->|Hin]; auto.
Qed.

Lemma sub_spaces_all_space s :
  forallb isspace s = true -> forallb isspace (sub_spaces s) = true.
Proof.
  induction s as [|c s IH]; [trivial|].
  cbn [forallb]. intros H. apply andb_prop in H as [H1 H2].
  rewrite sub_spaces_cons. destruct (startswith _ _); [auto|].
  cbn [forallb]. rewrite H1. auto.
Qed.

Lemma rstrip_all_space s : forallb isspace s = true -> rstrip s = [].
Proof.
  induction s as [|c s IH]; [trivial|].
  cbn [forallb]. intros H. apply andb_prop in H as [H1 H2].
  rewrite rstrip_cons, (IH H2), H1. reflexivity.
Qed.

Lemma concat_spaces toks :
  forallb suffix_or_space toks = true ->
  (forall tok, tok ∈ toks -> tok ∉ suffixes) ->
  forallb isspace (concat toks) = true.
Proof.
  induction toks as [|tok toks IH]; [trivial|].
  cbn [forallb concat]. intros H Hno. apply andb_prop in H as [H1 H2].
  destruct (suffix_or_space_cases _ H1) as [Hin | (c & -> & Hc)].
  - exfalso. apply (Hno tok); [now left | trivial].
  - cbn [app forallb]. rewrite Hc. apply IH; [trivial|].
    intros t Ht. apply Hno. now right.
Qed.

Lemma remove_suffix_tokens toks :
  forallb suffix_or_space toks = true -> remove_suffix (concat toks) = [].
Proof.
  intros Hall. unfold remove_suffix.
  destruct (fold_replace_tokens suffixes toks) as (toks' & E & Hall' & Hsub);
    [trivial | trivial |].
  rewrite E. apply rstrip_all_space, sub_spaces_all_space, concat_spaces.
  - exact Hall'.
  - intros tok Ht. now apply Hsub.
Qed.

(** ** The geo-table matcher as a search

    The matcher builds boolean masks, counts them and selects rows; the
    outcome is the first row of a filtered list. *)

Lemma existsb_id_map {A} (f : A -> bool) l :
  existsb (fun b => b) (List.map f l) = existsb f l.
Proof. induction l as [|x l IH]; cbn; [reflexivity | now rewrite IH]. Qed.

Lemma count_true_zero l :
  length (List.filter (fun b : bool => b) l) = O ->
  existsb (fun b => b) l = false.
Proof.
  induction l as [|b l IH]; [reflexivity|].
  destruct b; cbn; [discriminate | exact IH].
Qed.

Lemma count_true_pos l :
  existsb (fun b => b) l = false ->
  length (List.filter (fun b : bool => b) l) = O.
Proof.
  induction l as [|b l IH]; [reflexivity|].
  destruct b; cbn; [discriminate | exact IH].
Qed.

Lemma loc_mask_any (f : cell -> bool) rows :
  loc rows (mask_any (List.map (fun row => List.map f (geocols row)) rows))
  = List.filter (row_has f) rows.
Proof.
  unfold mask_any, row_has. induction rows as [|row rows IH]; [reflexivity|].
  cbn [List.map loc List.filter]. rewrite existsb_id_map, IH. reflexivity.
Qed.

Lemma mask_sum_zero (f : cell -> bool) rows :
  (mask_sum (List.map (fun row => List.map f (geocols row)) rows) =? 0)%nat
  = match List.filter (row_has f) rows with [] => true | _ :: _ => false end.
Proof.
  unfold mask_sum, row_has. induction rows as [|row rows IH]; [reflexivity|].
  cbn [List.map list_sum List.filter].
  destruct (existsb f (geocols row)) eqn:E.
  - rewrite <- existsb_id_map in E.
    destruct (length (List.filter (fun b : bool => b) (List.map f (geocols row))))
      eqn:El; [|reflexivity].
    apply count_true_zero in El. congruence.
  - rewrite <- existsb_id_map in E. apply count_true_pos in E.
    rewrite E. exact IH.
Qed.

Lemma narrowed_nonempty region row rows :
  narrowed region (row :: rows) <> [].
Proof.
  unfold narrowed.
  destruct (List.filter (row_has (cell_eq region)) (row :: rows)); discriminate.
Qed.

Lemma narrowed_single region row : narrowed region [row] = [row].
Proof.
  unfold narrowed. cbn [List.filter].
  destruct (row_has (cell_eq region) row); reflexivity.
Qed.

Lemma narrowed_subset region rows row :
  row ∈ narrowed region rows -> row ∈ rows.
Proof.
  unfold narrowed.
  destruct (List.filter (row_has (cell_eq region)) rows) as [|x l] eqn:E;
    [trivial|].
  rewrite <- E. intros H. apply list_elem_of_In, filter_In in H as [H _].
  now apply list_elem_of_In.
Qed.

(** ** The matcher and the client, unfolded *)

Section ResolverFacts.

Variable re_compiles : pystr -> bool.
Variable re_search : pystr -> pystr -> bool.
Variable endpoint : list pystr -> response.

Lemma region_to_country_from_geo_eq self region st :
  region_to_country_from_geo re_compiles re_search self region st =
  match geo_lookup re_compiles re_search self region with
  | Raise e => (Raise e, st)
  | Return None => (Return None, st)
  | Return (Some row) =>
      (Return (Some (row_record row)), put region (row_record row) st)
  end.
Proof.
  unfold region_to_country_from_geo, geo_lookup, candidates.
  destruct (re_compiles (remove_suffix region)); [|reflexivity].
  cbn [negb]. rewrite mask_sum_zero, loc_mask_any.
  set (pat := remove_suffix region).
  destruct (List.filter (row_has (str_contains re_search pat)) (geos self))
    as [|r1 [|r2 rows]] eqn:E; [reflexivity| |].
  - rewrite narrowed_single. reflexivity.
  - set (matched := r1 :: r2 :: rows).
    change (1 <? length matched)%nat with true. cbv iota.
    pose proof (mask_sum_zero (cell_eq region) matched) as Hz.
    rewrite loc_mask_any. unfold narrowed.
    destruct (List.filter (row_has (cell_eq region)) matched) as [|x l] eqn:Ex.
    + rewrite Hz. apply Nat.eqb_eq in Hz. rewrite Hz. reflexivity.
    + rewrite Hz. reflexivity.
Qed.

Lemma geo_lookup_row self region row :
  geo_lookup re_compiles re_search self region = Return (Some row) -> row ∈ geos self.
Proof.
  unfold geo_lookup. destruct (re_compiles _); [|discriminate].
  intros [= H]. apply head_Some_elem_of, narrowed_subset in H.
  unfold candidates in H.
  apply list_elem_of_In, filter_In in H as [H _]. now apply list_elem_of_In.
Qed.

Lemma region_to_country_from_API_body region st :
  region_to_country_from_API endpoint region st =
  match connect_to_endpoint endpoint region st with
  | (Raise e, st1) => (Raise e, st1)
  | (Return json, st1) =>
      match data json with
      | c :: _ =>
          (Return (Some (cand_name c, cand_country_name c, cand_country_code c)),
           put region
               (Some (cand_name c), Some (cand_country_name c),
                Some (cand_country_code c)) st1)
      | [] =>
          if decide (remove_suffix region = region)
          then (Return None, st1)
          else region_to_country_from_API endpoint (remove_suffix region) st1
      end
  end.
Proof.
  rewrite region_to_country_from_API_equation_1.
  destruct (connect_to_endpoint endpoint region st) as [[json|e] st1];
    [|reflexivity].
  cbn. destruct (data json) as [|c l]; [|reflexivity].
  cbn. destruct (decide (remove_suffix region = region)); reflexivity.
Qed.

End ResolverFacts.

(** ** The remote-search client *)

Section RemoteSearch.

Variable endpoint : list pystr -> response.

Lemma connect_to_endpoint_eq region st :
  connect_to_endpoint endpoint region st =
  if (status_code (endpoint (region :: requests st)) =? 200)%Z
  then (Return (endpoint (region :: requests st)), sent region st)
  else (Raise (HTTPError (status_code (endpoint (region :: requests st)))
                         (text (endpoint (region :: requests st)))),
        sent region st).
Proof. reflexivity. Qed.

Lemma region_to_country_from_API_spec region st :
  let r := region_to_country_from_API endpoint region st in
  error_regions r.2 = error_regions st
  /\ warnings r.2 = warnings st
  /\ (exists queries,
        requests r.2 = queries ++ requests st
        /\ (1 <= length queries <= S (length region))%nat)
  /\ match r.1 with
     | Raise e =>
         region_dict r.2 = region_dict st
         /\ exists log,
              e = HTTPError (status_code (endpoint log)) (text (endpoint log))
              /\ status_code (endpoint log) <> 200%Z
     | Return None => region_dict r.2 = region_dict st
     | Return (Some t) =>
         exists query c log,
           head (data (endpoint log)) = Some c
           /\ t = (cand_name c, cand_country_name c, cand_country_code c)
           /\ region_dict r.2 =
              <[query := (Some (cand_name c), Some (cand_country_name c),
                          Some (cand_country_code c))]> (region_dict st)
     end.
Proof.
  remember (length region) as n eqn:En. revert region st En.
  induction n as [n IH] using lt_wf_ind. intros region st En.
  rewrite region_to_country_from_API_body, connect_to_endpoint_eq.
  destruct (status_code (endpoint (region :: requests st)) =? 200)%Z eqn:Es.
  - destruct (data (endpoint (region :: requests st))) as [|c l] eqn:Ed.
    + destruct (decide (remove_suffix region = region)) as [Efix|Hne].
      * cbn. repeat split; trivial. exists [region]. cbn. split; [trivial|lia].
      * pose proof (remove_suffix_shorter region Hne) as Hlt.
        destruct (IH (length (remove_suffix region)) ltac:(lia)
                     (remove_suffix region) (sent region st) eq_refl)
          as (He & Hw & (queries & Hq & Hlen) & Hres).
        cbn in He, Hw, Hq. repeat split; trivial.
        exists (queries ++ [region]). rewrite <- app_assoc. cbn.
        split; [exact Hq|]. rewrite length_app. cbn. lia.
    + cbn. repeat split; trivial.
      * exists [region]. cbn. split; [trivial|lia].
      * exists region, c, (region :: requests st). rewrite Ed. auto.
  - cbn. repeat split; trivial.
    + exists [region]. cbn. split; [trivial|lia].
    + exists (region :: requests st). split; [trivial|].
      now apply Z.eqb_neq.
Qed.

Lemma transport_failure_raises region st status body :
  transport_failure endpoint region (requests st) status body ->
  exists st',
    region_to_country_from_API endpoint region st
    = (Raise (HTTPError status body), st')
    /\ region_dict st' = region_dict st
    /\ error_regions st' = error_regions st
    /\ warnings st' = warnings st.
Proof.
  remember (requests st) as log eqn:El. intros H. revert st El.
  induction H as [region log Hs | region log status body Hs Hd Hne _ IH];
    intros st ->.
  - rewrite region_to_country_from_API_body, connect_to_endpoint_eq.
    apply Z.eqb_neq in Hs. rewrite Hs. eauto.
  - rewrite region_to_country_from_API_body, connect_to_endpoint_eq.
    apply Z.eqb_eq in Hs. rewrite Hs, Hd.
    destruct (decide (remove_suffix region = region)); [contradiction|].
    destruct (IH (sent region st) eq_refl) as (st' & E & H1 & H2 & H3).
    eauto.
Qed.

End RemoteSearch.

(** ** The engine of the closed examples on ordinary patterns *)

Lemma dot_match_literal pat s :
  literal pat = true -> dot_match s pat = startswith s pat.
Proof.
  revert s. induction pat as [|p pat IH]; intros s H; [reflexivity|].
  cbn [literal forallb] in H. apply andb_prop in H as [Hp Hpat].
  destruct s as [|c s]; [reflexivity|]. cbn [dot_match startswith].
  rewrite (IH s Hpat).
  destruct (N.eqb_spec p 46) as [->|_]; [discriminate Hp | reflexivity].
Qed.

Lemma dot_search_literal pat s :
  literal pat = true -> dot_search pat s = contains s pat.
Proof.
  intros H. unfold dot_search. induction s as [|c s IH]; cbn [dot_search_from contains].
  - now rewrite dot_match_literal.
  - now rewrite dot_match_literal, IH.
Qed.

Lemma dot_compiles_literal pat : literal pat = true -> dot_compiles pat = true.
Proof.
  unfold literal, dot_compiles. induction pat as [|p pat IH]; [trivial|].
  cbn [forallb]. intros H. apply andb_prop in H as [Hp Hpat].
  rewrite Hp, orb_true_r. auto.
Qed.

(** ** The cascade *)

Lemma region_dict_put key value st :
  region_dict (put key value st) = <[key := value]> (region_dict st).
Proof. reflexivity. Qed.

Section Cascade.

Variable re_compiles : pystr -> bool.
Variable re_search : pystr -> pystr -> bool.
Variable endpoint : list pystr -> response.

(** One step through the body of [region_to_country]: the next call or
    lookup is replaced by each of its possible results. *)
Ltac cascade_step :=
  match goal with
  | |- context [region_to_country_from_geo re_compiles re_search ?self ?r ?st] =>
      rewrite (region_to_country_from_geo_eq re_compiles re_search self r st);
      let E := fresh "Egeo" in
      destruct (geo_lookup re_compiles re_search self r) as [[?row|]|?e] eqn:E
  | |- context [region_to_country_from_API endpoint ?r ?st] =>
      let H := fresh "Hapi" in
      pose proof (region_to_country_from_API_spec endpoint r st) as H;
      destruct (region_to_country_from_API endpoint r st)
        as [[[[[?f0 ?f1] ?f2]|]|?e] ?st] eqn:?;
      cbn [fst snd] in H;
      destruct H as (?Herr & ?Hwarn & ?Hreq & ?Hcache)
  | |- context [manual_dict ?self !! ?r] =>
      destruct (manual_dict self !! r) as [[[?m0 ?m1] ?m2]|] eqn:?
  | |- context [bool_decide (?m = [])] =>
      destruct (bool_decide_reflect (m = []))
  | |- context [truthy ?level] => destruct (truthy level)
  end; cbv beta iota; cbn [fst snd].

Ltac cascade :=
  unfold bind, ret, raise; cbv beta iota; repeat cascade_step;
  cbn [error_regions_append warn dict_set fst snd
       region_dict error_regions warnings requests].

Lemma region_to_country_keeps_keys self region st key :
  is_Some (region_dict st !! key) ->
  is_Some (region_dict
    (region_to_country re_compiles re_search endpoint self region st).2 !! key).
Proof.
  intros Hk. unfold region_to_country.
  destruct (region_dict st !! remove_parens region) eqn:Ehit; [exact Hk|].
  cascade.
  all: rewrite ?region_dict_put;
       repeat match goal with
       | H : _ /\ _ |- _ => destruct H
       | H : exists _, _ |- _ => destruct H
       | H : region_dict _ = _ |- _ => rewrite H; clear H
       end;
       rewrite ?lookup_insert_is_Some'; tauto.
Qed.

Lemma geo_returns_none self region st :
  (region_to_country_from_geo re_compiles re_search self region st).1
  = Return None ->
  geo_lookup re_compiles re_search self region = Return None.
Proof.
  rewrite region_to_country_from_geo_eq.
  destruct (geo_lookup re_compiles re_search self region) as [[row|]|e];
    cbn; congruence.
Qed.

Ltac leaf :=
  rewrite ?region_dict_put in *;
  repeat match goal with
  | H : _ /\ _ |- _ => destruct H
  | H : exists _, _ |- _ => destruct H
  | H : (_, _) = (_, _) |- _ => inversion H; subst; clear H
  | H : region_dict _ = _ |- _ => rewrite H in *; clear H
  end.

(** C2 (amended). During a session the cache table never loses a key:
    for every sequence of region_to_country calls, a key bound in the
    cache table stays bound after every later call. *)
Theorem cache_keys_persist self regions st key :
  is_Some (region_dict st !! key) ->
  is_Some (region_dict
    (session re_compiles re_search endpoint self regions st) !! key).
Proof.
  revert st. induction regions as [|region regions IH]; intros st Hk;
    [exact Hk|].
  cbn [session]. now apply IH, region_to_country_keeps_keys.
Qed.

Lemma region_to_country_by_truth self1 self2 region st :
  truthy (warn_region_mismatch self1) = truthy (warn_region_mismatch self2) ->
  manual_dict self1 = manual_dict self2 ->
  geos self1 = geos self2 ->
  region_to_country re_compiles re_search endpoint self1 region st
  = region_to_country re_compiles re_search endpoint self2 region st.
Proof.
  intros Hlevel Hmanual Hgeos.
  unfold region_to_country, region_to_country_from_geo.
  now rewrite Hlevel, Hmanual, Hgeos.
Qed.

(** C9. With warn_region_mismatch set to 2, region_to_country returns
    the same record and leaves the same cache table, error regions and
    warnings as with warn_region_mismatch set to 1, for every region and
    every initial state. *)
Theorem warn_level_2_as_level_1 self region st :
  region_to_country re_compiles re_search endpoint (with_level 2 self)
    region st
  = region_to_country re_compiles re_search endpoint (with_level 1 self)
    region st.
Proof. now apply region_to_country_by_truth. Qed.

(** C4. When the resolution of a region reaches the remote-search stage
    and the service answers a request of that stage with a status other
    than 200, region_to_country raises that failure; the cache table,
    the error regions and the warnings are as before the call. *)
Theorem transport_failure_propagates self region st status body :
  let cleaned := remove_parens region in
  region_dict st !! cleaned = None ->
  (region_to_country_from_geo re_compiles re_search self cleaned st).1
  = Return None ->
  match manual_dict self !! cleaned with
  | Some (m0, _, _) =>
      m0 = [] \/
      (region_to_country_from_geo re_compiles re_search self m0 st).1
      = Return None
  | None => True
  end ->
  transport_failure endpoint cleaned (requests st) status body ->
  exists st',
    region_to_country re_compiles re_search endpoint self region st
    = (Raise (HTTPError status body), st')
    /\ region_dict st' = region_dict st
    /\ error_regions st' = error_regions st
    /\ warnings st' = warnings st.
Proof.
  intros cleaned Hmiss Hgeo Hman Hfail.
  apply geo_returns_none in Hgeo.
  apply transport_failure_raises in Hfail as (st' & E & Hd & He & Hw).
  exists st'. split; [|auto].
  unfold region_to_country. fold cleaned. rewrite Hmiss.
  unfold bind, ret, raise. cbv beta iota.
  rewrite region_to_country_from_geo_eq, Hgeo. cbv beta iota.
  destruct (manual_dict self !! cleaned) as [[[m0 m1] m2]|].
  - destruct (bool_decide_reflect (m0 = [])) as [Hm|Hm]; cbv beta iota.
    + rewrite E. reflexivity.
    + destruct Hman as [Hman|Hman]; [contradiction|].
      apply geo_returns_none in Hman.
      rewrite region_to_country_from_geo_eq, Hman. cbv beta iota.
      rewrite E. reflexivity.
  - cbv beta iota. rewrite E. reflexivity.
Qed.


(** C8 (amended). A record that region_to_country returns on a cache
    miss with its corrected_name present is the (name, country_name,
    iso_a2) triple of one row of the geo table. Every entry a call
    leaves in the cache table was there before, or is such a row
    triple, or has no corrected_name, or is the first candidate of a
    response of the service, cached by the remote-search client without
    validation. *)
Theorem resolved_records_origin self region st :
  let r := region_to_country re_compiles re_search endpoint self region st in
  (region_dict st !! remove_parens region = None ->
   forall rec, r.1 = Return rec -> is_Some (corrected_name rec) ->
     exists row, row ∈ geos self /\ rec = row_record row)
  /\ forall key t, region_dict r.2 !! key = Some t ->
       region_dict st !! key = Some t
       \/ (exists row, row ∈ geos self /\ t = row_record row)
       \/ corrected_name t = None
       \/ from_service endpoint t.
Proof.
  cbn zeta. unfold region_to_country.
  destruct (region_dict st !! remove_parens region) eqn:Ehit.
  { split; [discriminate | auto]. }
  split.
  - intros _. cascade.
    all: intros rec [= <-] Hsome; try (destruct Hsome; discriminate).
    all: eauto using geo_lookup_row.
  - cascade.
    all: intros key t; leaf; rewrite ?lookup_insert_Some; unfold from_service;
         intros Hkey; intuition (subst; eauto 8 using geo_lookup_row).
Qed.

End Cascade.

(** ** The matcher's search on patterns of ordinary characters *)

Lemma filter_ext_rows (f g : geo_row -> bool) rows :
  (forall row, f row = g row) -> List.filter f rows = List.filter g rows.
Proof.
  intros H. induction rows as [|row rows IH]; [reflexivity|].
  cbn [List.filter]. now rewrite H, IH.
Qed.

Lemma existsb_ext_cells (f g : cell -> bool) cells :
  (forall c, f c = g c) -> existsb f cells = existsb g cells.
Proof.
  intros H. induction cells as [|c cells IH]; [reflexivity|].
  cbn [existsb]. now rewrite H, IH.
Qed.

Lemma contains_empty s : contains s [] = true.
Proof. destruct s; reflexivity. Qed.

Section Matcher.

Variable re_compiles : pystr -> bool.
Variable re_search : pystr -> pystr -> bool.

(** A pattern without special characters compiles and is found exactly
    where it is a substring. *)
Hypothesis re_literal :
  forall pat, literal pat = true ->
    re_compiles pat = true /\ forall s, re_search pat s = contains s pat.

Lemma candidates_literal self region :
  literal (remove_suffix region) = true ->
  candidates re_search self region
  = List.filter (row_has (cell_contains (remove_suffix region))) (geos self).
Proof.
  intros Hlit. destruct (re_literal _ Hlit) as [_ Hs].
  apply filter_ext_rows. intros row. apply existsb_ext_cells.
  intros [s|]; [apply Hs | reflexivity].
Qed.

(** C3 (amended). The matcher's first search is pandas' str.contains,
    a regular-expression search for the suffix-stripped query; it is
    substring containment when that pattern has no special character.
    For every query whose pattern compiles and on which that search
    finds more than one row, the matcher narrows to the rows having a
    name column exactly equal to the original query; if there is none,
    the unnarrowed set is kept; in either case the first row of the
    resulting set supplies the returned corrected name, country name
    and ISO code, and is cached under the original query. *)
Theorem geo_narrowing self region st :
  let matched := candidates re_search self region in
  re_compiles (remove_suffix region) = true ->
  (1 < length matched)%nat ->
  (exists row,
     head (narrowed region matched) = Some row
     /\ region_to_country_from_geo re_compiles re_search self region st
        = (Return (Some (row_record row)),
           put region (row_record row) st))
  /\ (literal (remove_suffix region) = true ->
      matched
      = List.filter (row_has (cell_contains (remove_suffix region)))
                    (geos self)).
Proof.
  intros matched Hc Hlen. split; [|apply candidates_literal].
  rewrite region_to_country_from_geo_eq. unfold geo_lookup. rewrite Hc.
  fold matched. destruct matched as [|r1 rows]; [cbn in Hlen; lia|].
  destruct (narrowed region (r1 :: rows)) as [|row l] eqn:E.
  - now apply narrowed_nonempty in E.
  - exists row. split; reflexivity.
Qed.

(** C10 (amended). For every query made only of suffix words and
    whitespace, suffix stripping yields the empty string, which is
    contained in every string; the matcher then reports not-found only
    when no geo row has a name column that is present, and otherwise
    returns the fields of the first row that has one, unless some of
    those rows have a name column exactly equal to the query, in which
    case the first of these supplies the fields. *)
Theorem suffix_only_query self toks st :
  forallb suffix_or_space toks = true ->
  let region := concat toks in
  let named := List.filter (row_has cell_present) (geos self) in
  remove_suffix region = []
  /\ (forall s, contains s [] = true)
  /\ region_to_country_from_geo re_compiles re_search self region st
     = match named with
       | [] => (Return None, st)
       | first :: _ =>
           let row :=
             default first
               (head (List.filter (row_has (cell_eq region)) named)) in
           (Return (Some (row_record row)), put region (row_record row) st)
       end.
Proof.
  intros Htoks region named.
  pose proof (remove_suffix_tokens toks Htoks) as Hempty. fold region in Hempty.
  split; [exact Hempty|]. split; [exact contains_empty|].
  destruct (re_literal [] eq_refl) as [Hc Hs].
  rewrite region_to_country_from_geo_eq. unfold geo_lookup, candidates.
  rewrite Hempty, Hc.
  assert (E : List.filter (row_has (str_contains re_search [])) (geos self)
              = named).
  { apply filter_ext_rows. intros row. apply existsb_ext_cells.
    intros [s|]; [|reflexivity]. cbn. rewrite Hs. apply contains_empty. }
  rewrite E. unfold narrowed.
  destruct named as [|first rows]; [reflexivity|].
  destruct (List.filter (row_has (cell_eq region)) (first :: rows));
    reflexivity.
Qed.

End Matcher.

(** ** The normalizer and the retry loop *)

(** C5 (amended). For every input string in which none of the suffix
    words occurs, the normalizer returns the input with every run of
    spaces collapsed to one space and trailing whitespace removed; it
    returns the input unchanged when, in addition, the input has no two
    consecutive spaces and does not end in whitespace. *)
Theorem remove_suffix_without_suffix s :
  suffix_free s = true ->
  remove_suffix s = rstrip (sub_spaces s)
  /\ (contains s [32; 32] = false -> ends_with_space s = false ->
      remove_suffix s = s).
Proof.
  intros H. split.
  - unfold remove_suffix. now rewrite (fold_replace_absent _ _ H).
  - now apply remove_suffix_unchanged.
Qed.

(** C6 (amended). The normalizer is idempotent on every input whose
    output contains no suffix word: remove_suffix(remove_suffix(s)) =
    remove_suffix(s) whenever no suffix word occurs in remove_suffix(s). *)
Theorem remove_suffix_idempotent s :
  suffix_free (remove_suffix s) = true ->
  remove_suffix (remove_suffix s) = remove_suffix s.
Proof.
  intros H. destruct (remove_suffix_normal s) as [H1 H2].
  now apply remove_suffix_unchanged.
Qed.

(** C7. The remote-search client returns or raises on every input after
    at most one request per character of the query and one more. When
    the service answers with status 200 and no candidate, it retries with
    the suffix-stripped query exactly when stripping changed the string,
    and reports not-found otherwise; each retry is on a strictly shorter
    query. *)
Theorem remote_search_terminates endpoint region st :
  (exists queries,
     requests (region_to_country_from_API endpoint region st).2
     = queries ++ requests st
     /\ (1 <= length queries <= S (length region))%nat)
  /\ (status_code (endpoint (region :: requests st)) = 200%Z ->
      data (endpoint (region :: requests st)) = [] ->
      region_to_country_from_API endpoint region st
      = if decide (remove_suffix region = region)
        then (Return None, sent region st)
        else region_to_country_from_API endpoint (remove_suffix region)
               (sent region st))
  /\ (remove_suffix region <> region ->
      (length (remove_suffix region) < length region)%nat).
Proof.
  split; [|split].
  - apply (region_to_country_from_API_spec endpoint region st).
  - intros Hs Hd.
    rewrite region_to_country_from_API_body, connect_to_endpoint_eq.
    apply Z.eqb_eq in Hs. now rewrite Hs, Hd.
  - apply remove_suffix_shorter.
Qed.

(** ** Closed examples *)

Lemma dot_engine_literal pat :
  literal pat = true ->
  dot_compiles pat = true /\ forall s, dot_search pat s = contains s pat.
Proof.
  intros H. split; [now apply dot_compiles_literal|].
  intros s. now apply dot_search_literal.
Qed.



(** C2, counterexample. In the one call that resolves "Atlantis" the
    remote-search client binds the key "Atlantis" to the service's record
    (stage 4); the candidate's name matches no geo row, and stage 5 binds
    the same key to another record. *)
Lemma stage5_rebinds_key :
  region_dict
    (region_to_country_from_API bavaria_service (py "Atlantis") new_session).2
    !! py "Atlantis"
  = Some (Some (py "Atlantis Deep"), Some (py "Oceania"), Some (py "OC"))
  /\ (resolve (py "Atlantis") new_session).2
     = ((error_regions_append (py "Atlantis") ;;;
         warn (WillNotMatchGeo (py "Atlantis")) ;;;
         dict_set (py "Atlantis") (None, Some (py "Oceania"), Some (py "OC")))
          (region_to_country_from_API bavaria_service (py "Atlantis")
             new_session).2).2
  /\ region_dict (resolve (py "Atlantis") new_session).2 !! py "Atlantis"
     = Some (None, Some (py "Oceania"), Some (py "OC")).
Proof. vm_compute. repeat split. Qed.

Lemma cache_keys_persist_witness :
  is_Some (region_dict after_bavarian !! py "Bavarian Land")
  /\ is_Some
       (region_dict
          (session dot_compiles dot_search bavaria_service bavaria
             [py "Atlantis"; py "Lemuria"; py "Sindh Province"] after_bavarian)
          !! py "Bavarian Land").
Proof.
  assert (H : is_Some (region_dict after_bavarian !! py "Bavarian Land"))
    by (vm_compute; eauto).
  split; [exact H|].
  apply (cache_keys_persist dot_compiles dot_search bavaria_service bavaria).
  exact H.
Defined.

(** C3, counterexample. Two rows contain the query "St. Cruz" as a
    substring and none equals it, so the claim has the first of the two,
    "St. Cruz East", supply the result; the matcher's search is a
    regular-expression search, finds "Sta Cruz" as well, and returns
    it. *)
Lemma regex_search_finds_more :
  List.filter (row_has (cell_contains (remove_suffix (py "St. Cruz"))))
              (geos cruz)
  = [geo "St. Cruz East" [] "BB" "Bland"; geo "St. Cruz West" [] "CC" "Cland"]
  /\ List.filter (row_has (cell_eq (py "St. Cruz"))) (geos cruz) = []
  /\ (region_to_country_from_geo dot_compiles dot_search cruz (py "St. Cruz")
        new_session).1
     = Return (Some (row_record (geo "Sta Cruz" [] "AA" "Aland")))
  /\ row_record (geo "Sta Cruz" [] "AA" "Aland")
     <> row_record (geo "St. Cruz East" [] "BB" "Bland").
Proof. vm_compute. repeat split; discriminate. Qed.

Lemma geo_narrowing_witness :
  (exists row,
     head (narrowed (py "Punjab Province")
             (candidates dot_search punjab (py "Punjab Province")))
     = Some row
     /\ region_to_country_from_geo dot_compiles dot_search punjab
          (py "Punjab Province") new_session
        = (Return (Some (row_record row)),
           put (py "Punjab Province") (row_record row) new_session))
  /\ (literal (remove_suffix (py "Punjab Province")) = true ->
      candidates dot_search punjab (py "Punjab Province")
      = List.filter
          (row_has (cell_contains (remove_suffix (py "Punjab Province"))))
          (geos punjab)).
Proof.
  apply (geo_narrowing dot_compiles dot_search dot_engine_literal punjab
           (py "Punjab Province") new_session).
  - vm_compute. reflexivity.
  - vm_compute. lia.
Defined.

Lemma transport_failure_propagates_witness :
  exists st',
    resolve (py "Lemuria") after_bavarian
    = (Raise (HTTPError 503 (py "Service Unavailable")), st')
    /\ region_dict st' = region_dict after_bavarian
    /\ error_regions st' = error_regions after_bavarian
    /\ warnings st' = warnings after_bavarian.
Proof.
  apply (transport_failure_propagates dot_compiles dot_search bavaria_service
           bavaria (py "Lemuria") after_bavarian).
  - vm_compute. reflexivity.
  - vm_compute. reflexivity.
  - vm_compute. exact I.
  - apply (failure_now bavaria_service (py "Lemuria") (requests after_bavarian)).
    vm_compute. discriminate.
Defined.

(** C5, counterexample. No suffix word occurs in "Rio  Negro" (two
    spaces), and the normalizer returns "Rio Negro". *)
Lemma double_space_is_collapsed :
  suffix_free (py "Rio  Negro") = true
  /\ remove_suffix (py "Rio  Negro") = py "Rio Negro"
  /\ remove_suffix (py "Rio  Negro") <> py "Rio  Negro".
Proof. vm_compute. repeat split; discriminate. Qed.

Lemma remove_suffix_without_suffix_witness :
  remove_suffix (py "Sindh") = rstrip (sub_spaces (py "Sindh"))
  /\ (contains (py "Sindh") [32; 32]%N = false ->
      ends_with_space (py "Sindh") = false ->
      remove_suffix (py "Sindh") = py "Sindh").
Proof.
  apply (remove_suffix_without_suffix (py "Sindh")).
  vm_compute. reflexivity.
Defined.

(** C6, counterexample. Deleting the inner "Province" of
    "ProProvincevince" leaves "Province", which a second application
    deletes. *)
Lemma nested_suffix_not_idempotent :
  remove_suffix (py "ProProvincevince") = py "Province"
  /\ remove_suffix (remove_suffix (py "ProProvincevince")) = []
  /\ remove_suffix (remove_suffix (py "ProProvincevince"))
     <> remove_suffix (py "ProProvincevince").
Proof. vm_compute. repeat split; discriminate. Qed.

Lemma remove_suffix_idempotent_witness :
  remove_suffix (remove_suffix (py "Sindh Province"))
  = remove_suffix (py "Sindh Province").
Proof.
  apply (remove_suffix_idempotent (py "Sindh Province")).
  vm_compute. reflexivity.
Defined.

(** C8, counterexample. After "Bavarian Land" has been resolved, the
    cache table binds it to the service's record: its corrected_name
    "Bavaria" is present, and its country_name "Deutschland" is that of no
    row of the geo table. *)
Lemma cached_candidate_is_no_geo_row :
  region_dict after_bavarian !! py "Bavarian Land"
  = Some (Some (py "Bavaria"), Some (py "Deutschland"), Some (py "DE"))
  /\ ~ exists row,
         row ∈ geos bavaria /\ country_name row = Some (py "Deutschland").
Proof.
  split; [vm_compute; reflexivity|].
  intros (row & Hin & Hc). apply list_elem_of_In in Hin.
  cbn in Hin. destruct Hin as [<-|[<-|[]]]; vm_compute in Hc; discriminate.
Qed.

(** C10, counterexample. The query "City" is a suffix word; it strips
    to the empty string, which both rows contain; the second row has a
    name equal to the query and supplies the fields, not the first. *)
Lemma suffix_query_exact_row :
  forallb suffix_or_space [py "City"] = true
  /\ head (geos cities) = Some (geo "Alpha" [] "AA" "Aland")
  /\ (region_to_country_from_geo dot_compiles dot_search cities
        (concat [py "City"]) new_session).1
     = Return (Some (row_record (geo "City" [] "BB" "Bland")))
  /\ row_record (geo "City" [] "BB" "Bland")
     <> row_record (geo "Alpha" [] "AA" "Aland").
Proof. vm_compute. repeat split; discriminate. Qed.

Lemma suffix_only_query_witness :
  remove_suffix (concat [py "State"; [32%N]; py "Province"]) = []
  /\ (forall s, contains s [] = true)
  /\ region_to_country_from_geo dot_compiles dot_search bavaria
       (concat [py "State"; [32%N]; py "Province"]) new_session
     = (Return (Some (row_record (geo "Bayern" ["Bavaria"%string] "DE" "Germany"))),
        put (concat [py "State"; [32%N]; py "Province"])
            (row_record (geo "Bayern" ["Bavaria"%string] "DE" "Germany"))
            new_session).
Proof.
  apply (suffix_only_query dot_compiles dot_search dot_engine_literal bavaria
           [py "State"; [32%N]; py "Province"] new_session).
  vm_compute. reflexivity.
Defined.

(** * Further properties of the code *)

(** ** [__remove_parens__] *)

Lemma remove_parens_from_In skip s x :
  In x (remove_parens_from skip s) -> In x s.
Proof.
  revert skip. induction s as [|c s IH]; intros skip; [trivial|].
  cbn [remove_parens_from]. destruct skip as [|k].
  - destruct (match_parens (c :: s)) as [n|].
    + intros H. right. eapply IH, H.
    + intros [H|H]; [now left | right; eapply IH, H].
  - intros H. right. eapply IH, H.
Qed.

Lemma remove_parens_from_length skip s :
  (length (remove_parens_from skip s) <= length s)%nat.
Proof.
  revert skip. induction s as [|c s IH]; intros skip; [trivial|].
  cbn [remove_parens_from]. destruct skip as [|k].
  - destruct (match_parens (c :: s)) as [n|]; cbn [length].
    + specialize (IH (n - 1)%nat). lia.
    + specialize (IH O). lia.
  - specialize (IH k). cbn [length]. lia.
Qed.

Lemma close_paren_None s : close_paren s = None <-> ~ In 41 s.
Proof.
  induction s as [|c s IH]; cbn [close_paren In]; [tauto|].
  destruct (N.eqb_spec c 41) as [->|Hc].
  - split; [discriminate | intros H; exfalso; apply H; now left].
  - rewrite fmap_None, IH. intuition congruence.
Qed.

Lemma close_paren_zero s :
  close_paren s = Some O -> exists s', s = 41 :: s'.
Proof.
  destruct s as [|c s]; [discriminate|]. cbn [close_paren].
  destruct (N.eqb_spec c 41) as [->|Hc]; [eauto|].
  destruct (close_paren s); discriminate.
Qed.

Lemma match_group_open s :
  match_group (40 :: s) = None ->
  close_paren s = None \/ close_paren s = Some O.
Proof.
  cbn. destruct (close_paren s) as [[|n]|]; [auto | discriminate | auto].
Qed.

Lemma remove_parens_from_group_free skip s :
  group_free (remove_parens_from skip s) = true.
Proof.
  revert skip. induction s as [|c s IH]; intros skip; [reflexivity|].
  cbn [remove_parens_from]. destruct skip as [|k]; [|apply IH].
  destruct (match_parens (c :: s)) as [n|] eqn:E; [apply IH|].
  cbn [group_free]. rewrite IH.
  assert (Hg : match_group (c :: remove_parens_from 0 s) = None);
    [|now rewrite Hg].
  unfold match_group. destruct (N.eqb_spec c 40) as [->|Hc]; [|reflexivity].
  change (match_group (40 :: s) = None) in E.
  destruct (match_group_open s E) as [Hn|Hz].
  - assert (Hn' : close_paren (remove_parens_from 0 s) = None);
      [|now rewrite Hn'].
    apply close_paren_None. intros Hin.
    apply close_paren_None in Hn. apply Hn.
    eapply remove_parens_from_In, Hin.
  - destruct (close_paren_zero s Hz) as [s' ->]. reflexivity.
Qed.

Lemma group_free_head s : group_free s = true -> match_group s = None.
Proof.
  destruct s as [|c s]; [reflexivity|]. cbn [group_free].
  destruct (match_group (c :: s)); [discriminate | reflexivity].
Qed.

Lemma group_free_fixed s :
  group_free s = true -> remove_parens_from 0 s = s.
Proof.
  induction s as [|c s IH]; [reflexivity|].
  intros H. pose proof (group_free_head _ H) as Hc.
  cbn [group_free] in H. rewrite Hc in H.
  pose proof (group_free_head _ H) as Hs.
  cbn [remove_parens_from].
  assert (Hm : match_parens (c :: s) = None).
  { unfold match_parens. rewrite Hs, Hc. now destruct (c =? 32). }
  rewrite Hm, (IH H). reflexivity.
Qed.

(** X1. Stripping parentheticals twice is stripping them once: the
    result of [__remove_parens__] contains no parenthesized group any
    more, although deleting a group joins the text around it. *)
Theorem remove_parens_idempotent s :
  remove_parens (remove_parens s) = remove_parens s.
Proof.
  unfold remove_parens. apply group_free_fixed, remove_parens_from_group_free.
Qed.

(** X2. [__remove_parens__] returns its input unchanged exactly when no
    parenthesized group with a non-empty body begins anywhere in it, and
    it never returns a longer string. *)
Theorem remove_parens_fixed_iff s :
  (remove_parens s = s <-> group_free s = true)
  /\ (length (remove_parens s) <= length s)%nat.
Proof.
  split; [split|].
  - intros H. rewrite <- H. apply remove_parens_from_group_free.
  - apply group_free_fixed.
  - apply remove_parens_from_length.
Qed.

(** ** [__remove_suffix__] *)

Lemma replace_from_present old s :
  old <> [] -> contains s old = true ->
  (length (replace_from old [] 0 s) < length s)%nat.
Proof.
  intros Hold. induction s as [|c s IH].
  - destruct old; [contradiction | discriminate].
  - cbn [contains]. rewrite replace_from_cons. intros H.
    destruct (startswith (c :: s) old); cbn [app length].
    + pose proof (replace_from_length old (length old - 1) s). lia.
    + cbn [orb] in H. specialize (IH H). lia.
Qed.

Lemma fold_replace_fixed_absent l s :
  Forall (fun w => w <> []) l ->
  length (fold_left (fun string suffix => replace string suffix []) l s)
  = length s ->
  forallb (fun suffix => negb (contains s suffix)) l = true.
Proof.
  intros Hl. revert s. induction Hl as [|w l Hw Hl IH]; intros s; [reflexivity|].
  cbn [fold_left forallb]. intros H.
  pose proof (fold_replace_length l (replace s w [])) as H1.
  pose proof (replace_length s w) as H2.
  assert (Hfix : replace s w [] = s) by (apply replace_fixed; lia).
  rewrite Hfix in H. rewrite (IH s H), andb_true_r.
  destruct (contains s w) eqn:Ec; [|reflexivity].
  exfalso. destruct w as [|o w]; [contradiction|].
  pose proof (replace_from_present (o :: w) s Hw Ec) as Hlt.
  change (replace_from (o :: w) [] 0 s) with (replace s (o :: w) []) in Hlt.
  rewrite Hfix in Hlt. lia.
Qed.

Lemma suffixes_nonempty : Forall (fun w : pystr => w <> []) suffixes.
Proof. repeat constructor; discriminate. Qed.

Lemma remove_suffix_fixed_suffix_free s :
  remove_suffix s = s -> suffix_free s = true.
Proof.
  intros H. apply (fold_replace_fixed_absent suffixes s suffixes_nonempty).
  pose proof (fold_replace_length suffixes s) as H1.
  pose proof (sub_spaces_length
    (fold_left (fun string suffix => replace string suffix []) suffixes s)) as H2.
  pose proof (rstrip_length (sub_spaces
    (fold_left (fun string suffix => replace string suffix []) suffixes s))) as H3.
  apply (f_equal length) in H. unfold remove_suffix in H. lia.
Qed.

(** X3. [__remove_suffix__] returns its input unchanged exactly when no
    suffix word occurs in it, it has no two consecutive spaces and it
    does not end in whitespace. In particular, when the remote-search
    client reaches its base case there is no suffix left to drop. *)
Theorem remove_suffix_fixed_iff s :
  remove_suffix s = s <->
  suffix_free s = true /\ contains s [32; 32] = false
  /\ ends_with_space s = false.
Proof.
  split.
  - intros H. split; [now apply remove_suffix_fixed_suffix_free|].
    rewrite <- H. apply remove_suffix_normal.
  - intros (H1 & H2 & H3). now apply remove_suffix_unchanged.
Qed.

(** X4. The result of [__remove_suffix__] never has two consecutive
    spaces, never ends in whitespace and is never longer than the
    input. *)
Theorem remove_suffix_result s :
  contains (remove_suffix s) [32; 32] = false
  /\ ends_with_space (remove_suffix s) = false
  /\ (length (remove_suffix s) <= length s)%nat.
Proof.
  destruct (remove_suffix_normal s) as [H1 H2].
  split; [exact H1|]. split; [exact H2|]. apply remove_suffix_length.
Qed.

(** ** The remote-search client *)

Lemma stripped_succ n region :
  stripped n (remove_suffix region) = stripped (S n) region.
Proof. unfold stripped. symmetry. apply Nat.iter_succ_r. Qed.

Section RemoteSearchResults.

Variable endpoint : list pystr -> response.

(** X5. When the remote-search client returns a tuple, it has sent the
    region and then the region stripped once, twice, ... up to some
    query that the service answered with candidates; the tuple is the
    first candidate of that answer, and it is cached under that last
    query (the stripped one, not the region the client was called
    with); nothing else changes. *)
Theorem remote_search_found region st t st1 :
  region_to_country_from_API endpoint region st = (Return (Some t), st1) ->
  exists n c,
    requests st1 = queries_sent n region (requests st)
    /\ head (requests st1) = Some (stripped n region)
    /\ status_code (endpoint (requests st1)) = 200%Z
    /\ head (data (endpoint (requests st1))) = Some c
    /\ t = (cand_name c, cand_country_name c, cand_country_code c)
    /\ region_dict st1
       = <[stripped n region :=
             (Some (cand_name c), Some (cand_country_name c),
              Some (cand_country_code c))]> (region_dict st)
    /\ error_regions st1 = error_regions st
    /\ warnings st1 = warnings st.
Proof.
  remember (length region) as m eqn:Em. revert region st Em.
  induction m as [m IH] using lt_wf_ind. intros region st Em.
  rewrite region_to_country_from_API_body, connect_to_endpoint_eq.
  destruct (status_code (endpoint (region :: requests st)) =? 200)%Z eqn:Es;
    [|discriminate].
  destruct (data (endpoint (region :: requests st))) as [|c l] eqn:Ed.
  - destruct (decide (remove_suffix region = region)) as [Efix|Hne];
      [discriminate|].
    intros H. pose proof (remove_suffix_shorter region Hne) as Hlt.
    destruct (IH (length (remove_suffix region)) ltac:(lia)
                 (remove_suffix region) (sent region st) eq_refl H)
      as (n & c & H1 & H2 & H3 & H4 & H5 & H6 & H7 & H8).
    exists (S n), c. rewrite <- stripped_succ. cbn [queries_sent].
    repeat split; assumption.
  - intros [= <- <-]. exists O, c. cbn. rewrite Ed.
    apply Z.eqb_eq in Es. repeat split; trivial.
Qed.

(** X6. When the remote-search client reports not-found, it has sent
    the region and then the region stripped once, twice, ... down to a
    query that stripping leaves unchanged, in which no suffix word
    occurs; the service answered that last query with no candidate; the
    cache table, the error regions and the warnings are unchanged. *)
Theorem remote_search_not_found region st st1 :
  region_to_country_from_API endpoint region st = (Return None, st1) ->
  exists n,
    requests st1 = queries_sent n region (requests st)
    /\ head (requests st1) = Some (stripped n region)
    /\ remove_suffix (stripped n region) = stripped n region
    /\ suffix_free (stripped n region) = true
    /\ status_code (endpoint (requests st1)) = 200%Z
    /\ data (endpoint (requests st1)) = []
    /\ region_dict st1 = region_dict st
    /\ error_regions st1 = error_regions st
    /\ warnings st1 = warnings st.
Proof.
  remember (length region) as m eqn:Em. revert region st Em.
  induction m as [m IH] using lt_wf_ind. intros region st Em.
  rewrite region_to_country_from_API_body, connect_to_endpoint_eq.
  destruct (status_code (endpoint (region :: requests st)) =? 200)%Z eqn:Es;
    [|discriminate].
  destruct (data (endpoint (region :: requests st))) as [|c l] eqn:Ed;
    [|discriminate].
  destruct (decide (remove_suffix region = region)) as [Efix|Hne].
  - intros [= <-]. exists O. cbn. apply Z.eqb_eq in Es.
    repeat split; trivial. now apply remove_suffix_fixed_suffix_free.
  - intros H. pose proof (remove_suffix_shorter region Hne) as Hlt.
    destruct (IH (length (remove_suffix region)) ltac:(lia)
                 (remove_suffix region) (sent region st) eq_refl H)
      as (n & H1 & H2 & H3 & H4 & H5 & H6 & H7 & H8 & H9).
    exists (S n). rewrite <- stripped_succ. cbn [queries_sent].
    repeat split; assumption.
Qed.

End RemoteSearchResults.

(** ** [region_to_country_from_geo] *)

Section MatcherResults.

Variable re_compiles : pystr -> bool.
Variable re_search : pystr -> pystr -> bool.

(** X7. The matcher raises only when the pattern does not compile, and
    then and when it reports not-found it leaves the state as it is. It
    reports not-found exactly when the search finds no row; otherwise it
    returns the fields of one of the rows found and caches them under
    the query as given, not under the stripped pattern. Taking
    [values[0]] never fails. *)
Theorem geo_outcomes self region st :
  (region_to_country_from_geo re_compiles re_search self region st).1
  <> Raise IndexError
  /\ region_to_country_from_geo re_compiles re_search self region st
     = if re_compiles (remove_suffix region)
       then match candidates re_search self region with
            | [] => (Return None, st)
            | first :: _ =>
                let row :=
                  default first
                    (head (List.filter (row_has (cell_eq region))
                             (candidates re_search self region))) in
                (Return (Some (row_record row)),
                 put region (row_record row) st)
            end
       else (Raise (ReError (remove_suffix region)), st).
Proof.
  rewrite region_to_country_from_geo_eq. unfold geo_lookup, narrowed.
  destruct (re_compiles (remove_suffix region)); [|split; [discriminate|reflexivity]].
  destruct (candidates re_search self region) as [|first rows];
    [split; [discriminate|reflexivity]|].
  destruct (List.filter (row_has (cell_eq region)) (first :: rows));
    split; try discriminate; reflexivity.
Qed.

(** X8. A row that the matcher returns was found by the search, and an
    exact match is always preferred: the returned row has a name column
    equal to the query whenever some row found has one. *)
Theorem geo_prefers_exact self region st t st' :
  region_to_country_from_geo re_compiles re_search self region st
  = (Return (Some t), st') ->
  exists row,
    t = row_record row
    /\ st' = put region t st
    /\ row ∈ candidates re_search self region
    /\ (row_has (cell_eq region) row = true
        \/ forall other, other ∈ candidates re_search self region ->
             row_has (cell_eq region) other = false).
Proof.
  rewrite region_to_country_from_geo_eq. unfold geo_lookup, narrowed.
  destruct (re_compiles (remove_suffix region)); [|discriminate].
  set (found := candidates re_search self region).
  destruct (List.filter (row_has (cell_eq region)) found) as [|x l] eqn:Ex.
  - destruct found as [|first rows] eqn:Ef; [discriminate|].
    intros [= <- <-]. exists first. split; [reflexivity|].
    split; [reflexivity|]. split; [now left|]. right.
    intros other Hin. destruct (row_has (cell_eq region) other) eqn:Eo;
      [|reflexivity].
    assert (Hf : In other (List.filter (row_has (cell_eq region)) (first :: rows))).
    { apply filter_In. split; [now apply list_elem_of_In | exact Eo]. }
    rewrite Ex in Hf. destruct Hf.
  - intros [= <- <-]. exists x. split; [reflexivity|].
    split; [reflexivity|].
    assert (Hx : In x (List.filter (row_has (cell_eq region)) found))
      by (rewrite Ex; now left).
    apply filter_In in Hx as [Hin Hex].
    split; [now apply list_elem_of_In | now left].
Qed.

End MatcherResults.

(** ** [region_to_country] *)

(** One step through the body of [region_to_country], for the engine
    [rc], [rs] and the endpoint [ep]. *)
Ltac resolve_step rc rs ep :=
  match goal with
  | |- context [region_to_country_from_geo rc rs ?self ?r ?st] =>
      rewrite (region_to_country_from_geo_eq rc rs self r st);
      let E := fresh "Egeo" in
      destruct (geo_lookup rc rs self r) as [[?row|]|?e] eqn:E
  | |- context [region_to_country_from_API ep ?r ?st] =>
      let H := fresh "Hapi" in
      pose proof (region_to_country_from_API_spec ep r st) as H;
      destruct (region_to_country_from_API ep r st)
        as [[[[[?f0 ?f1] ?f2]|]|?e] ?st] eqn:?;
      cbn [fst snd] in H;
      destruct H as (?Herr & ?Hwarn & ?Hreq & ?Hcache)
  | |- context [manual_dict ?self !! ?r] =>
      destruct (manual_dict self !! r) as [[[?m0 ?m1] ?m2]|] eqn:?
  | |- context [bool_decide (?m = [])] =>
      destruct (bool_decide_reflect (m = []))
  | |- context [truthy ?level] => destruct (truthy level) eqn:?
  end; cbv beta iota; cbn [fst snd].

Ltac resolve_cases rc rs ep :=
  unfold bind, ret, raise; cbv beta iota; repeat resolve_step rc rs ep;
  cbn [error_regions_append warn dict_set put fst snd
       region_dict error_regions warnings requests].


Lemma app_singleton_neq {A} (l : list A) x : l ++ [x] <> l.
Proof.
  intros H. apply (f_equal length) in H. rewrite length_app in H.
  cbn in H. lia.
Qed.

Section CascadeResults.

Variable re_compiles : pystr -> bool.
Variable re_search : pystr -> pystr -> bool.
Variable endpoint : list pystr -> response.


Lemma error_regions_step self region st :
  let st' :=
    (region_to_country re_compiles re_search endpoint self region st).2 in
  error_regions st' = error_regions st
  \/ (error_regions st' = error_regions st ++ [remove_parens region]
      /\ region_dict st !! remove_parens region = None
      /\ is_Some (region_dict st' !! remove_parens region)).
Proof.
  cbn zeta. unfold region_to_country.
  destruct (region_dict st !! remove_parens region) eqn:Ehit; [now left|].
  resolve_cases re_compiles re_search endpoint.
  all: try (left; assumption); try (left; reflexivity).
  all: right; rewrite ?Herr; split; [reflexivity|]; split; [reflexivity|].
  all: rewrite lookup_insert_eq; eauto.
Qed.

Lemma error_regions_cached_step self region st :
  error_regions_cached st ->
  error_regions_cached
    (region_to_country re_compiles re_search endpoint self region st).2.
Proof.
  intros [Hnd Hin].
  pose proof (region_to_country_keeps_keys re_compiles re_search endpoint
                self region st) as Hkeys.
  destruct (error_regions_step self region st) as [E|(E & Hmiss & Hnew)];
    unfold error_regions_cached; rewrite E.
  - split; [exact Hnd|]. intros r Hr. apply Hkeys, Hin, Hr.
  - split.
    + apply NoDup_app. split; [exact Hnd|]. split; [|apply NoDup_singleton].
      intros r Hr Hr'. apply list_elem_of_singleton in Hr' as ->.
      destruct (Hin _ Hr) as [t Ht]. congruence.
    + intros r Hr. apply elem_of_app in Hr as [Hr|Hr].
      * apply Hkeys, Hin, Hr.
      * apply list_elem_of_singleton in Hr as ->. exact Hnew.
Qed.

Lemma error_regions_cached_session self regions st :
  error_regions_cached st ->
  error_regions_cached
    (session re_compiles re_search endpoint self regions st).
Proof.
  revert st. induction regions as [|region regions IH]; intros st H;
    [exact H|].
  cbn [session]. apply IH, error_regions_cached_step, H.
Qed.

(** X10. Throughout a session no region is recorded as an error region
    twice, and every error region is a key of the cache table: a region
    reaches stage 5 only on a cache miss, and stage 5 caches it. *)
Theorem error_regions_recorded_once self regions st :
  NoDup (error_regions st) ->
  (forall region, region ∈ error_regions st ->
     is_Some (region_dict st !! region)) ->
  let st' := session re_compiles re_search endpoint self regions st in
  NoDup (error_regions st')
  /\ forall region, region ∈ error_regions st' ->
       is_Some (region_dict st' !! region).
Proof.
  intros H1 H2. apply error_regions_cached_session. now split.
Qed.




(** X13. A call sends requests only in its remote-search stage: either
    it sends none, or the cleaned region was not in the cache table, the
    direct geo match reported not-found, and the requests are those of
    one run of the remote-search client on the cleaned region. *)
Theorem requests_only_from_remote_search self region st :
  let cleaned := remove_parens region in
  let st' :=
    (region_to_country re_compiles re_search endpoint self region st).2 in
  requests st' = requests st
  \/ (region_dict st !! cleaned = None
      /\ (region_to_country_from_geo re_compiles re_search self cleaned st).1
         = Return None
      /\ requests st'
         = requests (region_to_country_from_API endpoint cleaned st).2).
Proof.
  cbn zeta. unfold region_to_country.
  destruct (region_dict st !! remove_parens region) eqn:Ehit; [now left|].
  resolve_cases re_compiles re_search endpoint.
  all: repeat match goal with
       | H : (_, _) = (_, _) |- _ => inversion H; subst; clear H
       end.
  all: first [ left; reflexivity
             | right; split; [reflexivity|]; split; reflexivity ].
Qed.

(** X14. A raw string and its cleaned form are the same query: resolving
    "Georgia (US)" and resolving what [__remove_parens__] makes of it
    return the same result and leave the same state. *)
Theorem region_to_country_parenthetical self region st :
  region_to_country re_compiles re_search endpoint self
    (remove_parens region) st
  = region_to_country re_compiles re_search endpoint self region st.
Proof.
  unfold region_to_country.
  replace (remove_parens (remove_parens region)) with (remove_parens region);
    [reflexivity|].
  symmetry. unfold remove_parens.
  apply group_free_fixed, remove_parens_from_group_free.
Qed.

(** X20. Every record that a call returns is in the cache table after
    the call: under the cleaned region, or, when the match went through
    the manual entry or the service, under the corrected name of the
    manual entry or the name of the service's candidate. *)
Theorem returned_record_is_cached self region st rec st' :
  let cleaned := remove_parens region in
  region_to_country re_compiles re_search endpoint self region st
  = (Return rec, st') ->
  region_dict st' !! cleaned = Some rec
  \/ (exists m0 m1 m2,
        manual_dict self !! cleaned = Some (m0, m1, m2)
        /\ region_dict st' !! m0 = Some rec)
  \/ (exists log c,
        head (data (endpoint log)) = Some c
        /\ region_dict st' !! cand_name c = Some rec).
Proof.
  intros cleaned. subst cleaned. unfold region_to_country.
  destruct (region_dict st !! remove_parens region) eqn:Ehit.
  { intros [= <- <-]. now left. }
  resolve_cases re_compiles re_search endpoint.
  all: intros Hcall; try discriminate Hcall.
  all: inversion Hcall; subst; clear Hcall.
  all: try (left; apply lookup_insert_eq).
  all: try (right; left; do 3 eexists; split;
            [reflexivity | apply lookup_insert_eq]).
  all: right; right;
       destruct Hcache as (q & c & log & Hc & [= -> -> ->] & _);
       exists log, c; split; [exact Hc | apply lookup_insert_eq].
Qed.

End CascadeResults.

(** ** Construction: [__read_to_dict__] and [__init__] *)

Lemma read_rows_good good rest counter d :
  forallb four_fields good = true ->
  read_rows (List.map Some good ++ rest) counter d
  = read_rows rest (counter + length good) (fold_left add_row good d).
Proof.
  revert counter d. induction good as [|row good IH]; intros counter d H.
  - cbn. now rewrite Nat.add_0_r.
  - cbn [forallb] in H. apply andb_prop in H as [Hrow Hgood].
    destruct row as [|r0 [|r1 [|r2 [|r3 extra]]]]; try discriminate.
    cbn [List.map app read_rows length fold_left add_row].
    rewrite (IH _ _ Hgood). f_equal. lia.
Qed.

Lemma add_rows_other rows d key :
  (forall row, row ∈ rows -> head row <> Some key) ->
  fold_left add_row rows d !! key = d !! key.
Proof.
  revert d. induction rows as [|row rows IH]; intros d Hkey; [reflexivity|].
  cbn [fold_left]. rewrite IH; [|intros r Hr; apply Hkey; now right].
  destruct row as [|r0 [|r1 [|r2 [|r3 extra]]]]; try reflexivity.
  cbn [add_row]. apply lookup_insert_ne. intros ->.
  apply (Hkey (key :: r1 :: r2 :: r3 :: extra)); [now left | reflexivity].
Qed.

(** X15. The last row wins. When every row of the file has four fields
    or more, [__read_to_dict__] warns of nothing and binds a key to the
    second, third and fourth field of the last row that begins with it;
    further fields are ignored. *)
Theorem read_to_dict_last_row_wins before key a b c extra after :
  forallb four_fields before = true ->
  forallb four_fields after = true ->
  (forall row, row ∈ after -> head row <> Some key) ->
  exists region_dict,
    read_to_dict
      (List.map Some (before ++ (key :: a :: b :: c :: extra) :: after))
    = (region_dict, [])
    /\ region_dict !! key = Some (a, b, c).
Proof.
  intros Hb Ha Hkey. unfold read_to_dict.
  pose proof (read_rows_good
    (before ++ (key :: a :: b :: c :: extra) :: after) [] 0 ∅) as E.
  rewrite app_nil_r in E. rewrite E.
  - cbn [read_rows]. eexists. split; [reflexivity|].
    rewrite fold_left_app. cbn [fold_left add_row].
    rewrite (add_rows_other after _ key Hkey). apply lookup_insert_eq.
  - rewrite forallb_app. cbn [forallb four_fields]. now rewrite Hb, Ha.
Qed.

(** X16. Reading stops at the first bad row. At a row with fewer than
    four fields (a blank line is a row with none), or where the reader
    raises, [__read_to_dict__] returns the entries of the rows before it
    and drops every row after it; it warns with the number of rows it
    took from the reader, the short row included. A file that cannot be
    opened gives the empty dict and the warning for row 0. *)
Theorem read_to_dict_stops_at_bad_row good bad rest :
  forallb four_fields good = true ->
  match bad with
  | Some row => four_fields row = false
  | None => True
  end ->
  read_to_dict (List.map Some good ++ bad :: rest)
  = ((read_to_dict (List.map Some good)).1,
     [FailedToReadDict
        (length good + match bad with Some _ => 1 | None => 0 end)]).
Proof.
  intros Hgood Hbad. unfold read_to_dict.
  pose proof (read_rows_good good [] 0 ∅ Hgood) as E. rewrite app_nil_r in E.
  rewrite (read_rows_good good (bad :: rest) 0 ∅ Hgood), E.
  cbn [read_rows fst]. destruct bad as [row|].
  - destruct row as [|r0 [|r1 [|r2 [|r3 extra]]]]; try discriminate Hbad.
    all: cbn [Nat.add]; now rewrite Nat.add_1_r.
  - cbn [Nat.add]. now rewrite Nat.add_0_r.
Qed.

Lemma pop_keys_lookup keys manual_dict key :
  pop_keys keys manual_dict !! key
  = if decide (key ∈ keys) then None else manual_dict !! key.
Proof.
  unfold pop_keys. revert manual_dict.
  induction keys as [|k keys IH]; intros manual_dict; cbn [fold_left].
  - destruct (decide (key ∈ [])) as [H|_]; [inversion H | reflexivity].
  - rewrite IH. destruct (decide (key ∈ keys)) as [Hin|Hout].
    + rewrite decide_True; [reflexivity | now right].
    + destruct (decide (key = k)) as [->|Hne].
      * rewrite decide_True; [apply lookup_delete_eq | now left].
      * rewrite decide_False; [now apply lookup_delete_ne|].
        intros H. apply elem_of_cons in H as [?|?]; contradiction.
Qed.

Lemma keys_of_map (m : gmap pystr (pystr * pystr * pystr)) key :
  key ∈ List.map fst (map_to_list m) <-> is_Some (m !! key).
Proof.
  rewrite list_elem_of_In, in_map_iff. split.
  - intros ([k v] & <- & Hin). apply list_elem_of_In, elem_of_map_to_list in Hin.
    eauto.
  - intros [v Hv]. exists (key, v). split; [reflexivity|].
    now apply list_elem_of_In, elem_of_map_to_list.
Qed.

(** X17. After [__init__] the manual table and the cache table share no
    key: an entry of the manual file whose key the cache file has is
    dropped, and every other entry is kept as read. Every record of the
    initial cache has its three fields present, [__start_dict_len__] is
    the number of its keys, and the error regions are empty. *)
Theorem init_tables manual_file dict_file rows level :
  let start := init manual_file dict_file rows level in
  (forall key,
     manual_dict (converter_of start) !! key
     = match region_dict (state_of start) !! key with
       | Some _ => None
       | None => (read_to_dict manual_file).1 !! key
       end)
  /\ (forall key,
        region_dict (state_of start) !! key
        = loaded <$> (read_to_dict dict_file).1 !! key)
  /\ start_dict_len start = size (region_dict (state_of start))
  /\ error_regions (state_of start) = [].
Proof.
  cbn zeta. unfold init.
  destruct (read_to_dict manual_file) as [manual w1].
  destruct (read_to_dict dict_file) as [cache w2].
  cbn [converter_of state_of manual_dict region_dict start_dict_len
       error_regions fst].
  split; [|split; [|split]].
  - intros key. rewrite pop_keys_lookup, lookup_fmap.
    destruct (decide (key ∈ List.map fst (map_to_list cache))) as [Hin|Hout].
    + apply keys_of_map in Hin as [v ->]. reflexivity.
    + destruct (cache !! key) as [v|] eqn:E; [|reflexivity].
      exfalso. apply Hout, keys_of_map. eauto.
  - intros key. apply lookup_fmap.
  - symmetry. apply map_size_fmap.
  - reflexivity.
Qed.

(** ** Teardown: [__del__] *)

Lemma size_grows_iff (m m' : gmap pystr record) :
  (forall key, is_Some (m !! key) -> is_Some (m' !! key)) ->
  (size m < size m')%nat <->
  exists key, is_Some (m' !! key) /\ m !! key = None.
Proof.
  intros Hsub.
  assert (Hdom : dom m ⊆ dom m').
  { intros key. rewrite !elem_of_dom. apply Hsub. }
  rewrite <- !size_dom. split.
  - intros Hlt.
    assert (Hpos : (0 < size (dom m' ∖ dom m))%nat).
    { rewrite size_difference by exact Hdom. lia. }
    apply size_pos_elem_of in Hpos as [key Hkey].
    apply elem_of_difference in Hkey as [Hin Hout].
    exists key. split; [now apply elem_of_dom|].
    now apply not_elem_of_dom.
  - intros (key & Hin & Hout). apply subset_size. split; [exact Hdom|].
    intros Hrev. apply elem_of_dom in Hin. apply Hrev in Hin.
    apply elem_of_dom in Hin as [v Hv]. congruence.
Qed.

Section Teardown.

Variable re_compiles : pystr -> bool.
Variable re_search : pystr -> pystr -> bool.
Variable endpoint : list pystr -> response.

Lemma session_keeps_keys self regions st key :
  is_Some (region_dict st !! key) ->
  is_Some (region_dict
    (session re_compiles re_search endpoint self regions st) !! key).
Proof.
  revert st. induction regions as [|region regions IH]; intros st Hk;
    [exact Hk|].
  cbn [session]. now apply IH, region_to_country_keeps_keys.
Qed.

(** X18. [__del__] rewrites the cache file exactly when the session has
    bound a key that the cache table did not have at the start. A
    session that only rebinds keys, or is answered from the cache alone,
    writes nothing. *)
Theorem teardown_writes_iff_new_key self regions st :
  let st' := session re_compiles re_search endpoint self regions st in
  (del (size (region_dict st)) st').2 = true <->
  exists key,
    is_Some (region_dict st' !! key) /\ region_dict st !! key = None.
Proof.
  cbn zeta. unfold del. cbn [snd]. rewrite bool_decide_eq_true.
  apply size_grows_iff. intros key. apply session_keeps_keys.
Qed.

(** X19. The summary that [__del__] prints, [list(set(error_regions))],
    has one element for each entry of [error_regions]: in a session that
    starts with no error region, taking the set discards nothing. *)
Theorem teardown_prints_every_error_region self regions st n :
  error_regions st = [] ->
  let st' := session re_compiles re_search endpoint self regions st in
  size (del n st').1 = length (error_regions st')
  /\ forall region, region ∈ (del n st').1 <-> region ∈ error_regions st'.
Proof.
  intros Hempty. cbn zeta. unfold del. cbn [fst]. split.
  - apply size_list_to_set.
    apply (error_regions_cached_session re_compiles re_search endpoint).
    split; rewrite Hempty; [constructor | intros r Hr; inversion Hr].
  - intros region. apply elem_of_list_to_set.
Qed.

End Teardown.

(** ** Closed examples of the further properties *)

Lemma remote_search_found_witness :
  exists n c,
    requests
      (region_to_country_from_API bavaria_service (py "Atlantis Province")
         new_session).2
    = queries_sent n (py "Atlantis Province") (requests new_session)
    /\ head (requests
               (region_to_country_from_API bavaria_service
                  (py "Atlantis Province") new_session).2)
       = Some (stripped n (py "Atlantis Province"))
    /\ status_code
         (bavaria_service
            (requests
               (region_to_country_from_API bavaria_service
                  (py "Atlantis Province") new_session).2)) = 200%Z
    /\ head (data
               (bavaria_service
                  (requests
                     (region_to_country_from_API bavaria_service
                        (py "Atlantis Province") new_session).2))) = Some c
    /\ (py "Atlantis Deep", py "Oceania", py "OC")
       = (cand_name c, cand_country_name c, cand_country_code c)
    /\ region_dict
         (region_to_country_from_API bavaria_service (py "Atlantis Province")
            new_session).2
       = <[stripped n (py "Atlantis Province") :=
             (Some (cand_name c), Some (cand_country_name c),
              Some (cand_country_code c))]> (region_dict new_session)
    /\ error_regions
         (region_to_country_from_API bavaria_service (py "Atlantis Province")
            new_session).2 = error_regions new_session
    /\ warnings
         (region_to_country_from_API bavaria_service (py "Atlantis Province")
            new_session).2 = warnings new_session.
Proof.
  apply (remote_search_found bavaria_service (py "Atlantis Province")
           new_session (py "Atlantis Deep", py "Oceania", py "OC")).
  vm_compute. reflexivity.
Defined.

Lemma remote_search_not_found_witness :
  exists n,
    requests
      (region_to_country_from_API bavaria_service (py "Utopia Zone")
         new_session).2
    = queries_sent n (py "Utopia Zone") (requests new_session)
    /\ head (requests
               (region_to_country_from_API bavaria_service (py "Utopia Zone")
                  new_session).2)
       = Some (stripped n (py "Utopia Zone"))
    /\ remove_suffix (stripped n (py "Utopia Zone"))
       = stripped n (py "Utopia Zone")
    /\ suffix_free (stripped n (py "Utopia Zone")) = true
    /\ status_code
         (bavaria_service
            (requests
               (region_to_country_from_API bavaria_service (py "Utopia Zone")
                  new_session).2)) = 200%Z
    /\ data
         (bavaria_service
            (requests
               (region_to_country_from_API bavaria_service (py "Utopia Zone")
                  new_session).2)) = []
    /\ region_dict
         (region_to_country_from_API bavaria_service (py "Utopia Zone")
            new_session).2 = region_dict new_session
    /\ error_regions
         (region_to_country_from_API bavaria_service (py "Utopia Zone")
            new_session).2 = error_regions new_session
    /\ warnings
         (region_to_country_from_API bavaria_service (py "Utopia Zone")
            new_session).2 = warnings new_session.
Proof.
  apply (remote_search_not_found bavaria_service (py "Utopia Zone")
           new_session).
  vm_compute. reflexivity.
Defined.

Lemma geo_prefers_exact_witness :
  exists row,
    (Some (py "Punjab"), Some (py "Pakistan"), Some (py "PK"))
    = row_record row
    /\ (region_to_country_from_geo dot_compiles dot_search punjab
          (py "Punjab") new_session).2
       = put (py "Punjab")
           (Some (py "Punjab"), Some (py "Pakistan"), Some (py "PK"))
           new_session
    /\ row ∈ candidates dot_search punjab (py "Punjab")
    /\ (row_has (cell_eq (py "Punjab")) row = true
        \/ forall other, other ∈ candidates dot_search punjab (py "Punjab") ->
             row_has (cell_eq (py "Punjab")) other = false).
Proof.
  apply (geo_prefers_exact dot_compiles dot_search punjab (py "Punjab")
           new_session).
  vm_compute. reflexivity.
Defined.


Lemma error_regions_recorded_once_witness :
  NoDup (error_regions
           (session dot_compiles dot_search bavaria_service bavaria
              [py "Atlantis"; py "Utopia"; py "Atlantis (sunk)"; py "Utopia"]
              new_session))
  /\ forall region,
       region ∈ error_regions
                  (session dot_compiles dot_search bavaria_service bavaria
                     [py "Atlantis"; py "Utopia"; py "Atlantis (sunk)";
                      py "Utopia"] new_session) ->
       is_Some
         (region_dict
            (session dot_compiles dot_search bavaria_service bavaria
               [py "Atlantis"; py "Utopia"; py "Atlantis (sunk)"; py "Utopia"]
               new_session) !! region).
Proof.
  apply (error_regions_recorded_once dot_compiles dot_search bavaria_service
           bavaria
           [py "Atlantis"; py "Utopia"; py "Atlantis (sunk)"; py "Utopia"]
           new_session).
  - constructor.
  - intros region H. inversion H.
Defined.



Lemma returned_record_is_cached_witness :
  region_dict after_bavarian !! remove_parens (py "Bavarian Land")
  = Some (Some (py "Bayern"), Some (py "Germany"), Some (py "DE"))
  \/ (exists m0 m1 m2,
        manual_dict bavaria !! remove_parens (py "Bavarian Land")
        = Some (m0, m1, m2)
        /\ region_dict after_bavarian !! m0
           = Some (Some (py "Bayern"), Some (py "Germany"), Some (py "DE")))
  \/ (exists log c,
        head (data (bavaria_service log)) = Some c
        /\ region_dict after_bavarian !! cand_name c
           = Some (Some (py "Bayern"), Some (py "Germany"), Some (py "DE"))).
Proof.
  apply (returned_record_is_cached dot_compiles dot_search bavaria_service
           bavaria (py "Bavarian Land") new_session).
  vm_compute. reflexivity.
Defined.

Lemma read_to_dict_last_row_wins_witness :
  exists region_dict,
    read_to_dict
      (List.map Some
         (cache_rows
          ++ [py "Atlantis"; py "Atlantis Deep"; py "Oceania"; py "OC"]
          :: [[py "Utopia"; []; []; []]]))
    = (region_dict, [])
    /\ region_dict !! py "Atlantis"
       = Some (py "Atlantis Deep", py "Oceania", py "OC").
Proof.
  apply (read_to_dict_last_row_wins cache_rows (py "Atlantis")
           (py "Atlantis Deep") (py "Oceania") (py "OC") []
           [[py "Utopia"; []; []; []]]).
  - reflexivity.
  - reflexivity.
  - intros row H. apply list_elem_of_singleton in H as ->. discriminate.
Defined.

Lemma read_to_dict_stops_at_bad_row_witness :
  read_to_dict cache_rows_blank_line
  = ((read_to_dict
        [Some [py "Bavarian Land"; py "Bavaria"; py "Deutschland"; py "DE"]]).1,
     [FailedToReadDict 2]).
Proof.
  apply (read_to_dict_stops_at_bad_row
           [[py "Bavarian Land"; py "Bavaria"; py "Deutschland"; py "DE"]]
           (Some [])
           [Some [py "Atlantis"; []; py "Oceania"; py "OC"]]).
  - reflexivity.
  - reflexivity.
Defined.

Lemma teardown_prints_every_error_region_witness :
  size (del 0
          (session dot_compiles dot_search bavaria_service bavaria
             [py "Atlantis"; py "Utopia"; py "Atlantis"] new_session)).1
  = length
      (error_regions
         (session dot_compiles dot_search bavaria_service bavaria
            [py "Atlantis"; py "Utopia"; py "Atlantis"] new_session))
  /\ forall region,
       region ∈ (del 0
                   (session dot_compiles dot_search bavaria_service bavaria
                      [py "Atlantis"; py "Utopia"; py "Atlantis"]
                      new_session)).1
       <-> region ∈ error_regions
                      (session dot_compiles dot_search bavaria_service bavaria
                         [py "Atlantis"; py "Utopia"; py "Atlantis"]
                         new_session).
Proof.
  apply (teardown_prints_every_error_region dot_compiles dot_search
           bavaria_service bavaria
           [py "Atlantis"; py "Utopia"; py "Atlantis"] new_session 0).
  reflexivity.
Defined.
